(** * repoStruct2Markdown: a directory tree rendered as one markdown document

    A shallow embedding of [repoStruct2Markdown.py].  Python [str] values
    are sequences of Unicode code points, the file system is a finite tree
    of entries, and the two closures of
    [generate_repo_structure_to_markdown] thread the accumulated [result]
    lines and the [file_contents] dictionary explicitly. *)

From Stdlib Require Import String Ascii DecimalString.
From Stdlib Require Import List NArith Arith Lia Bool.
From Stdlib Require Import Sorting.Sorted Sorting.Permutation.
Import ListNotations.

Set Implicit Arguments.

(** ** Python strings *)

Module PyStr.

Definition char := N.
Definition str := list char.

(** ASCII literals of the source, as code points. *)
Definition lit (s : string) : str :=
  map N_of_ascii (list_ascii_of_string s).

Definition str_eqb (a b : str) : bool :=
  if list_eq_dec N.eq_dec a b then true else false.

(** [c in s] for a single character [c]. *)
Definition contains (c : char) (s : str) : bool := existsb (N.eqb c) s.

(** [a <= b] on [str]: lexicographic on code points. *)
Fixpoint str_leb (a b : str) : bool :=
  match a, b with
  | [], _ => true
  | _ :: _, [] => false
  | x :: a', y :: b' =>
      if (x <? y)%N then true
      else if (y <? x)%N then false
      else str_leb a' b'
  end.

(** The lexicographic order on strings, by code points: the empty string
    comes first, a smaller first character decides, and equal first
    characters leave the decision to the rest. *)
Inductive str_le : str -> str -> Prop :=
| str_le_nil (b : str) : str_le [] b
| str_le_lt (x y : char) (a b : str) : (x < y)%N -> str_le (x :: a) (y :: b)
| str_le_eq (x : char) (a b : str) : str_le a b -> str_le (x :: a) (x :: b).

(** [sep.join(l)]. *)
Fixpoint join (sep : str) (l : list str) : str :=
  match l with
  | [] => []
  | [x] => x
  | x :: rest => x ++ sep ++ join sep rest
  end.

(** [s.split(c)] for a one-character separator: never the empty list. *)
Fixpoint split (c : char) (s : str) : list str :=
  match s with
  | [] => [[]]
  | x :: s' =>
      if (x =? c)%N then [] :: split c s'
      else match split c s' with
           | [] => [[x]]
           | w :: ws => (x :: w) :: ws
           end
  end.

Fixpoint dropwhile (p : char -> bool) (s : str) : str :=
  match s with
  | [] => []
  | x :: s' => if p x then dropwhile p s' else s
  end.

Definition lstrip_by (p : char -> bool) (s : str) : str := dropwhile p s.
Definition rstrip_by (p : char -> bool) (s : str) : str :=
  rev (dropwhile p (rev s)).

(** [str.isspace] on one code point: the characters [str.rstrip()]
    removes when called without an argument. *)
Definition isspace (c : char) : bool :=
  ((9 <=? c) && (c <=? 13) || (28 <=? c) && (c <=? 32)
   || (c =? 133) || (c =? 160) || (c =? 5760)
   || (8192 <=? c) && (c <=? 8202)
   || (c =? 8232) || (c =? 8233) || (c =? 8239) || (c =? 8287)
   || (c =? 12288))%N.

Definition rstrip (s : str) : str := rstrip_by isspace s.

(** [str(i)] for a non-negative integer. *)
Definition str_of_nat (n : nat) : str :=
  lit (NilZero.string_of_uint (Nat.to_uint n)).

(** [enumerate(l, start)]. *)
Fixpoint enumerate {A} (start : nat) (l : list A) : list (nat * A) :=
  match l with
  | [] => []
  | x :: l' => (start, x) :: enumerate (S start) l'
  end.

Definition newline : char := 10%N.
Definition dash : char := 45%N.
Definition dot : char := 46%N.
Definition star : char := 42%N.
Definition slash : char := 47%N.

(** [s.rfind(c)], [None] standing for -1. *)
Fixpoint rfind_from (i : nat) (c : char) (s : str) (found : option nat)
  : option nat :=
  match s with
  | [] => found
  | x :: s' => rfind_from (S i) c s' (if (x =? c)%N then Some i else found)
  end.
Definition rfind (c : char) (s : str) : option nat := rfind_from 0 c s None.

(** [sorted(l, key=key)]: a stable sort on [str] keys. *)
Section Sorted.
Variable A : Type.
Variable key : A -> str.

Fixpoint insert_by (x : A) (l : list A) : list A :=
  match l with
  | [] => [x]
  | y :: l' =>
      if str_leb (key x) (key y) then x :: l else y :: insert_by x l'
  end.

Definition sorted_by (l : list A) : list A := fold_right insert_by [] l.

(** The order [sorted] establishes. *)
Definition key_le (x y : A) : Prop := str_leb (key x) (key y) = true.
End Sorted.

Definition is_upper (c : char) : bool := ((65 <=? c) && (c <=? 90))%N.
Definition is_lower (c : char) : bool := ((97 <=? c) && (c <=? 122))%N.
Definition is_digit (c : char) : bool := ((48 <=? c) && (c <=? 57))%N.

(** [str.lower] restricted to ASCII input, used to instantiate the
    library function on concrete data. *)
Definition ascii_lower_char (c : char) : char :=
  if is_upper c then (c + 32)%N else c.
Definition ascii_lower (s : str) : str := map ascii_lower_char s.

End PyStr.
Import PyStr.

(** ** Anchor identifiers *)

Module Anchor.

Section WithLower.

(** [str.lower] of the Python runtime (full Unicode lowercasing). *)
Variable str_lower : str -> str.

(** [re.sub(r'[^a-zA-Z0-9]', '-', s)]: every character outside the class
    is one match and becomes a dash. *)
Definition sub_non_alnum (s : str) : str :=
  map (fun c => if is_lower c || is_upper c || is_digit c then c else dash) s.

(** [re.sub(r'-+', '-', s)]: scanning left to right, a maximal run of
    dashes is one match; [in_run] records that the scan is inside a match
    whose replacement has already been written. *)
Fixpoint sub_dash_runs_from (in_run : bool) (s : str) : str :=
  match s with
  | [] => []
  | c :: s' =>
      if (c =? dash)%N
      then if in_run then sub_dash_runs_from true s'
           else dash :: sub_dash_runs_from true s'
      else c :: sub_dash_runs_from false s'
  end.
Definition sub_dash_runs (s : str) : str := sub_dash_runs_from false s.

(** [s.strip('-')]. *)
Definition strip_dashes (s : str) : str :=
  rstrip_by (N.eqb dash) (lstrip_by (N.eqb dash) s).

Definition create_anchor_id (filename : str) : str :=
  let anchor := sub_non_alnum (str_lower filename) in
  let anchor := sub_dash_runs anchor in
  let anchor := strip_dashes anchor in
  anchor.

(** The slug as the specification words it. *)
Definition outside_az09_to_dash (s : str) : str :=
  map (fun c => if is_lower c || is_digit c then c else dash) s.

(** A dash that is directly followed by another dash is dropped. *)
Fixpoint collapse_dashes (s : str) : str :=
  match s with
  | [] => []
  | c :: s' =>
      match s' with
      | d :: _ =>
          if (c =? dash)%N && (d =? dash)%N then collapse_dashes s'
          else c :: collapse_dashes s'
      | [] => [c]
      end
  end.

(** Dashes at the front are dropped one by one. *)
Fixpoint strip_leading_dashes (s : str) : str :=
  match s with
  | [] => []
  | c :: s' => if (c =? dash)%N then strip_leading_dashes s' else s
  end.

(** A dash is dropped when nothing but dashes follows it. *)
Fixpoint strip_trailing_dashes (s : str) : str :=
  match s with
  | [] => []
  | c :: s' =>
      match strip_trailing_dashes s' with
      | [] => if (c =? dash)%N then [] else [c]
      | kept => c :: kept
      end
  end.

Definition slug_spec (s : str) : str :=
  strip_trailing_dashes
    (strip_leading_dashes
       (collapse_dashes (outside_az09_to_dash (str_lower s)))).

End WithLower.

End Anchor.

(** ** Outcomes of fallible steps *)

Inductive exn := OSError | ValueError | AssertionError | RecursionError.

Inductive res (A : Type) :=
| Ok (a : A)
| Raise (e : exn).
Arguments Ok {A} a.
Arguments Raise {A} e.

Definition bind {A B} (m : res A) (f : A -> res B) : res B :=
  match m with
  | Ok a => f a
  | Raise e => Raise e
  end.

Notation "x <- m ;; k" := (bind m (fun x => k))
  (at level 61, m at next level, right associativity).

(** A [for] loop whose body may raise. *)
Fixpoint for_each {A S} (l : list A) (body : A -> S -> res S) (s : S)
  : res S :=
  match l with
  | [] => Ok s
  | x :: l' => s' <- body x s ;; for_each l' body s'
  end.

(** The comprehension [[x for x in l if p(x)]] for a test that may
    raise: the test runs on every element in order. *)
Fixpoint select {A} (p : A -> res bool) (l : list A) : res (list A) :=
  match l with
  | [] => Ok []
  | x :: l' =>
      b <- p x ;;
      rest <- select p l' ;;
      Ok (if b then x :: rest else rest)
  end.

(** ** Paths ([pathlib.PurePosixPath]) *)

Module PathLib.

(** [p_root] is [""], ["/"] or ["//"]; [p_names] are the components
    below it. *)
Record path := { p_root : str; p_names : list str }.

Definition name (p : path) : str := last (p_names p) [].

Definition parts (p : path) : list str :=
  match p_root p with
  | [] => p_names p
  | _ => p_root p :: p_names p
  end.

(** [p / child]. *)
Definition joinpath (p : path) (child : str) : path :=
  {| p_root := p_root p; p_names := p_names p ++ [child] |}.

(** [str(p)]. *)
Definition path_str (p : path) : str :=
  match p_root p, p_names p with
  | [], [] => [dot]
  | r, ns => r ++ join [slash] ns
  end.

Fixpoint strip_prefix (base l : list str) : option (list str) :=
  match base, l with
  | [], _ => Some l
  | b :: base', x :: l' =>
      if str_eqb b x then strip_prefix base' l' else None
  | _ :: _, [] => None
  end.

(** [p.relative_to(base)]; [ValueError] when [base] is not a prefix. *)
Definition relative_to (p base : path) : res path :=
  if str_eqb (p_root p) (p_root base) then
    match strip_prefix (p_names base) (p_names p) with
    | Some rest => Ok {| p_root := []; p_names := rest |}
    | None => Raise ValueError
    end
  else Raise ValueError.

(** [p.suffix]. *)
Definition suffix (p : path) : str :=
  let name := name p in
  match rfind dot name with
  | Some i =>
      if (0 <? i) && (i <? length name - 1) then skipn i name else []
  | None => []
  end.

(** [parse_parts] on one pattern string: its root and its parts (the
    root, when there is one, is the first part). *)
Definition parse_parts (pattern : str) : str * list str :=
  let stripped := lstrip_by (N.eqb slash) pattern in
  let root :=
    match pattern with
    | c :: _ =>
        if (c =? slash)%N
        then if length pattern - length stripped =? 2
             then [slash; slash] else [slash]
        else []
    | [] => []
    end in
  let parsed :=
    filter (fun x => negb (str_eqb x []) && negb (str_eqb x [dot]))
           (split slash stripped) in
  (root, match root with [] => parsed | _ => root :: parsed end).

Section Match.

(** [fnmatch.fnmatchcase(name, pat)] of the Python runtime. *)
Variable fnmatchcase : str -> str -> bool.

Definition match_reversed (parts pat_parts : list str) : bool :=
  forallb (fun pp => fnmatchcase (fst pp) (snd pp))
          (combine (rev parts) (rev pat_parts)).

(** [p.match(path_pattern)]: the pattern's parts are matched against the
    path's parts from the right; a rooted pattern must cover the whole
    path. *)
Definition path_match (p : path) (path_pattern : str) : res bool :=
  let '(root, pat_parts) := parse_parts path_pattern in
  match pat_parts with
  | [] => Raise ValueError
  | _ :: pat_tail =>
      if negb (str_eqb root []) && negb (str_eqb root (p_root p))
      then Ok false
      else
        if negb (str_eqb root [])
        then if negb (length pat_parts =? length (parts p))
             then Ok false
             else Ok (match_reversed (parts p) pat_tail)
        else if length (parts p) <? length pat_parts
             then Ok false
             else Ok (match_reversed (parts p) pat_parts)
  end.

End Match.

(** [fnmatchcase] on patterns without bracket expressions: [*] matches
    any run of characters, [?] any one character, anything else
    itself. *)
Fixpoint glob_match (pat : str) : str -> bool :=
  match pat with
  | [] => fun s => match s with [] => true | _ => false end
  | c :: pat' =>
      if (c =? star)%N then
        fix any (s : str) : bool :=
          glob_match pat' s
          || match s with [] => false | _ :: s' => any s' end
      else if (c =? 63)%N then
        fun s => match s with [] => false | _ :: s' => glob_match pat' s' end
      else
        fun s => match s with
                 | [] => false
                 | x :: s' => (x =? c)%N && glob_match pat' s'
                 end
  end.

Definition simple_fnmatchcase (name pat : str) : bool := glob_match pat name.

End PathLib.
Import PathLib.

(** ** The file system seen by one run *)

Inductive read_result :=
| ReadOk (text : str)
| ReadError (msg : str).

Inductive listing (A : Type) :=
| Listed (items : list A)
| PermissionDenied
| ListFailed.
Arguments Listed {A} items.
Arguments PermissionDenied {A}.
Arguments ListFailed {A}.

(** [Other] is an entry for which both [is_dir()] and [is_file()] are
    false.  [NoStat] is an entry whose status cannot be read: [is_dir()]
    and [is_file()] raise on it ([PermissionError] and the other errors
    pathlib does not turn into [False]).  A directory carries what
    [iterdir()] does on it: its children in the order the system yields
    them, [PermissionError], or any other [OSError]. *)
#[warnings="-register-all"]
Inductive entry :=
| File (name : str) (content : read_result)
| Dir (name : str) (children : listing entry)
| Other (name : str)
| NoStat (name : str).

Definition entry_name (e : entry) : str :=
  match e with
  | File n _ | Dir n _ | Other n | NoStat n => n
  end.

(** A [pathlib.Path] object together with what it denotes on disk. *)
Record item := { item_path : path; item_node : entry }.

Definition item_name (i : item) : str := name (item_path i).

(** What the entry is on disk: a directory, a regular file. *)
Definition is_dir (i : item) : bool :=
  match item_node i with Dir _ _ => true | _ => false end.

Definition is_file (i : item) : bool :=
  match item_node i with File _ _ => true | _ => false end.

Definition can_stat (i : item) : bool :=
  match item_node i with NoStat _ => false | _ => true end.

(** [i.is_dir()] and [i.is_file()]: the answer, or the [OSError] of the
    status call. *)
Definition path_is_dir (i : item) : res bool :=
  if can_stat i then Ok (is_dir i) else Raise OSError.

Definition path_is_file (i : item) : res bool :=
  if can_stat i then Ok (is_file i) else Raise OSError.

Definition child_item (directory : item) (e : entry) : item :=
  {| item_path := joinpath (item_path directory) (entry_name e);
     item_node := e |}.

(** [directory.iterdir()]; on anything but a directory it raises
    [NotADirectoryError], an [OSError]. *)
Definition iterdir (directory : item) : listing item :=
  match item_node directory with
  | Dir _ (Listed l) => Listed (map (child_item directory) l)
  | Dir _ PermissionDenied => PermissionDenied
  | Dir _ ListFailed => ListFailed
  | _ => ListFailed
  end.

(** [file_path.read_text(encoding='utf-8', errors='replace')]. *)
Definition read_text (file_path : item) : read_result :=
  match item_node file_path with
  | File _ c => c
  | _ => ReadError (lit "Is a directory")
  end.

(** Every directory listing at or below [e] either succeeds or is
    refused for lack of permission. *)
Fixpoint lists_ok (e : entry) : bool :=
  match e with
  | Dir _ (Listed l) => forallb lists_ok l
  | Dir _ PermissionDenied => true
  | Dir _ ListFailed => false
  | _ => true
  end.

(** The status of every entry at or below [e] can be read. *)
Fixpoint stats_ok (e : entry) : bool :=
  match e with
  | Dir _ (Listed l) => forallb stats_ok l
  | NoStat _ => false
  | _ => true
  end.

(** Nesting depth of directories below an entry. *)
Fixpoint height (e : entry) : nat :=
  match e with
  | Dir _ (Listed l) => S (fold_right (fun c h => Nat.max (height c) h) 0 l)
  | _ => 0
  end.

(** ** Language resolution *)

Module Lang.

(** [d.get(k)] on a dictionary literal. *)
Fixpoint dict_get {V} (d : list (str * V)) (k : str) : option V :=
  match d with
  | [] => None
  | (k', v) :: d' => if str_eqb k' k then Some v else dict_get d' k
  end.

Definition extension_map : list (str * str) :=
  [ (lit ".cpp", lit "cpp");
    (lit ".c", lit "c");
    (lit ".h", lit "cpp");
    (lit ".hpp", lit "cpp");
    (lit ".py", lit "python");
    (lit ".js", lit "javascript");
    (lit ".html", lit "html");
    (lit ".css", lit "css");
    (lit ".java", lit "java");
    (lit ".md", lit "markdown");
    (lit ".json", lit "json");
    (lit ".xml", lit "xml");
    (lit ".sql", lit "sql");
    (lit ".sh", lit "bash");
    (lit ".bat", lit "batch");
    (lit ".ps1", lit "powershell");
    (lit ".cs", lit "csharp");
    (lit ".rb", lit "ruby");
    (lit ".php", lit "php");
    (lit ".pl", lit "perl");
    (lit ".go", lit "go");
    (lit ".rs", lit "rust");
    (lit ".idl", lit "idl");
    (lit ".yaml", lit "yaml") ].

Section WithLower.
Variable str_lower : str -> str.

Definition determine_file_language (file_path : path) : option str :=
  let suffix := str_lower (suffix file_path) in
  dict_get extension_map suffix.

End WithLower.

End Lang.
Import Lang.

(** ** Output lines *)

(** One constructor per string the source appends to [result]; each
    keeps the values interpolated into it, and [render] is the
    f-string. *)
Inductive line :=
| Preamble
| StructureHeading
| Legend
| RootLine (root_name : str)
| PermissionLine (prefix indent : str)
| FolderLine (prefix indent : str) (dir_item : item)
| FileLine (prefix indent : str) (file_item : item) (anchor_id : str)
| Separator
| ContentsHeading
| SectionHeading (anchor_id : str)
| FileLabel (rel_path : str)
| Intro (rel_path : str)
| FenceOpen (language : str)
| CodeBlock (numbered_lines : list str)
| FenceClose
| Rule
| ReadErrorLine (msg : str).

Definition FOLDER_SYMBOL : str := [128193%N].
Definition FILE_SYMBOL : str := [128196%N].
Definition WARNING_SYMBOL : str := [9888%N; 65039%N].

Definition render (l : line) : str :=
  match l with
  | Preamble =>
      lit "This is a source code repo with markdown formatting." ++ [newline]
  | StructureHeading => lit "# Repository Structure"
  | Legend =>
      lit "We use " ++ FOLDER_SYMBOL ++ lit " to represent folder, and "
        ++ FILE_SYMBOL ++ lit " as file." ++ [newline]
  | RootLine root_name => lit "- " ++ FOLDER_SYMBOL ++ lit " " ++ root_name
  | PermissionLine prefix indent =>
      prefix ++ indent ++ lit "- " ++ WARNING_SYMBOL
        ++ lit " [Permission denied]"
  | FolderLine prefix indent dir_item =>
      prefix ++ indent ++ lit "- " ++ FOLDER_SYMBOL ++ lit " "
        ++ item_name dir_item
  | FileLine prefix indent file_item anchor_id =>
      prefix ++ indent ++ lit "- " ++ FILE_SYMBOL ++ lit " ["
        ++ item_name file_item ++ lit "](#" ++ anchor_id ++ lit ")"
  | Separator => [newline] ++ lit "---" ++ [newline]
  | ContentsHeading => lit "# File Contents" ++ [newline]
  | SectionHeading anchor_id => lit "## " ++ anchor_id
  | FileLabel rel_path => lit "file: " ++ rel_path
  | Intro rel_path =>
      lit "Here is contents of " ++ rel_path ++ lit " with line numbers:"
  | FenceOpen language => lit "```" ++ language
  | CodeBlock numbered_lines => join [newline] numbered_lines
  | FenceClose => lit "```"
  | Rule => lit "---" ++ [newline]
  | ReadErrorLine msg =>
      lit "*Error reading file: " ++ msg ++ lit "*" ++ [newline]
  end.

(** ** The generator *)

Module Tool.

(** A value of the [file_contents] dictionary. *)
Record content_record := {
  rec_anchor_id : str;
  rec_file_path : item;
  rec_rel_path : str
}.

(** [d[k] = v] on an insertion-ordered dictionary: an existing key keeps
    its position. *)
Fixpoint dict_set {V} (d : list (str * V)) (k : str) (v : V)
  : list (str * V) :=
  match d with
  | [] => [(k, v)]
  | (k', v') :: d' =>
      if str_eqb k' k then (k, v) :: d' else (k', v') :: dict_set d' k v
  end.

Record state := {
  result : list line;
  file_contents : list (str * content_record)
}.

(** Every line and every record of a state satisfies a property. *)
Definition state_ok (PL : line -> Prop) (PR : str * content_record -> Prop)
    (st : state) : Prop :=
  Forall PL (result st) /\ Forall PR (file_contents st).

(** Lines of the tree section that stand for an entry. *)
Definition entry_of_line (l : line) : option item :=
  match l with
  | FolderLine _ _ x | FileLine _ _ x _ => Some x
  | _ => None
  end.

Definition append (l : line) (st : state) : state :=
  {| result := result st ++ [l]; file_contents := file_contents st |}.

Definition record_file (k : str) (v : content_record) (st : state) : state :=
  {| result := result st; file_contents := dict_set (file_contents st) k v |}.

(** What the caller observes. *)
Record output := {
  returned : str;
  printed : list str;
  written : option (str * str)
}.

(** The numbered body of one code block. *)
Definition number_lines (content : str) : list str :=
  let content_lines := split newline (rstrip content) in
  map (fun il => str_of_nat (fst il) ++ lit ": " ++ snd il)
      (enumerate 1 content_lines).

Section Run.

(** Library functions of the Python runtime. *)
Variable str_lower : str -> str.
Variable fnmatchcase : str -> str -> bool.

(** The arguments of [generate_repo_structure_to_markdown]; [path] is the
    root with what it denotes on disk. *)
Variable directory_path : item.
Variable output_file : option str.
Variable ignore_patterns : option (list str).
Variable ignore_hidden : bool.
Variable include_file_contents : bool.

(** Whether [open(output_file, 'w')] and the write succeed.  Standard
    output is taken to accept every text. *)
Variable writable : str -> bool.

(** How many calls of [_build_tree] may be nested before the
    interpreter's recursion limit is reached. *)
Variable max_depth : nat.

Abbreviation determine_file_language :=
  (Lang.determine_file_language str_lower).
Abbreviation create_anchor_id := (Anchor.create_anchor_id str_lower).

(** [hidden_pattern.match(name)] for [hidden_pattern = ^\..*]: the name
    starts with a dot. *)
Definition hidden_pattern_match (name : str) : bool :=
  match name with
  | c :: _ => (c =? dot)%N
  | [] => false
  end.

Fixpoint ignore_loop (item : item) (patterns : list str) : res bool :=
  match patterns with
  | [] => Ok false
  | pattern :: rest =>
      if str_eqb pattern (item_name item) then Ok true
      else if contains star pattern then
        m <- path_match fnmatchcase (item_path item) pattern ;;
        if m then Ok true else ignore_loop item rest
      else ignore_loop item rest
  end.

Definition _should_ignore (item : item) : res bool :=
  if ignore_hidden && hidden_pattern_match (item_name item) then Ok true
  else match ignore_patterns with
       | None => Ok false
       | Some patterns => ignore_loop item patterns
       end.

Definition key_name_lower (x : item) : str := str_lower (item_name x).

(** Body of the loop over [dirs]; [recurse] is [_build_tree] one level
    down. *)
Definition dir_step (recurse : item -> str -> str -> state -> res state)
    (prefix indent : str) (dir_item : item) (st : state) : res state :=
  ign <- _should_ignore dir_item ;;
  if ign then Ok st
  else
    let st := append (FolderLine prefix indent dir_item) st in
    recurse dir_item (prefix ++ indent) indent st.

(** Body of the loop over [files]. *)
Definition file_step (prefix indent : str) (file_item : item) (st : state)
  : res state :=
  ign <- _should_ignore file_item ;;
  if ign then Ok st
  else
    match determine_file_language (item_path file_item) with
    | None => Ok st
    | Some _ =>
        rel_path <- relative_to (item_path file_item)
                                (item_path directory_path) ;;
        let anchor_id := create_anchor_id (path_str rel_path) in
        let st := append (FileLine prefix indent file_item anchor_id) st in
        if include_file_contents then
          Ok (record_file
                (path_str rel_path ++ lit "//" ++ item_name file_item)
                {| rec_anchor_id := anchor_id;
                   rec_file_path := file_item;
                   rec_rel_path := path_str rel_path |}
                st)
        else Ok st
    end.

(** [fuel] is the number of nested calls still allowed: a call beyond
    it raises [RecursionError]. *)
Fixpoint _build_tree (fuel : nat) (directory : item) (prefix indent : str)
    (st : state) : res state :=
  match fuel with
  | 0 => Raise RecursionError
  | S fuel' =>
      match iterdir directory with
      | PermissionDenied => Ok (append (PermissionLine prefix indent) st)
      | ListFailed => Raise OSError
      | Listed items =>
          found <- select path_is_dir items ;;
          let dirs := sorted_by key_name_lower found in
          found <- select path_is_file items ;;
          let files := sorted_by key_name_lower found in
          st <- for_each dirs
                  (dir_step (_build_tree fuel') prefix indent) st ;;
          for_each files (file_step prefix indent) st
      end
  end.

(** Body of the loop over [file_contents.items()]. *)
Definition emit_file (kv : str * content_record) (result : list line)
  : res (list line) :=
  let anchor_id := rec_anchor_id (snd kv) in
  let file_path := rec_file_path (snd kv) in
  let rel_path := rec_rel_path (snd kv) in
  match determine_file_language (item_path file_path) with
  | None => Raise AssertionError
  | Some language =>
      let result := result ++ [SectionHeading anchor_id] in
      let result := result ++ [FileLabel rel_path] in
      let result := result ++ [Intro rel_path] in
      match read_text file_path with
      | ReadOk content =>
          let result := result ++ [FenceOpen language] in
          let result := result ++ [CodeBlock (number_lines content)] in
          let result := result ++ [FenceClose] in
          Ok (result ++ [Rule])
      | ReadError msg => Ok (result ++ [ReadErrorLine msg])
      end
  end.

(** The language of a record's file resolves. *)
Definition supported_record (kv : str * content_record) : Prop :=
  determine_file_language (item_path (rec_file_path (snd kv))) <> None.

Definition root_name : str :=
  match item_name directory_path with
  | [] => path_str (item_path directory_path)
  | n => n
  end.

(** A [str] used as a condition is true when it is not empty. *)
Definition output_requested : option str :=
  match output_file with
  | Some (c :: f) => Some (c :: f)
  | _ => None
  end.

Definition initial_state : state :=
  {| result := [Preamble; StructureHeading; Legend; RootLine root_name];
     file_contents := [] |}.

(** The tree walk from the root. *)
Definition build_from_root : res state :=
  _build_tree max_depth directory_path [] (lit "  ") initial_state.

(** The content section appended after the walk. *)
Definition emit_contents (st : state) : res (list line) :=
  if include_file_contents && negb (Nat.eqb (length (file_contents st)) 0)
  then for_each (file_contents st) emit_file
         (result st ++ [Separator; ContentsHeading])
  else Ok (result st).

(** All lines of [result] when the function reaches the final join. *)
Definition document : res (list line) :=
  st <- build_from_root ;; emit_contents st.

Definition generate_repo_structure_to_markdown : res output :=
  result <- document ;;
  let markdown_structure := join [newline] (map render result) in
  match output_requested with
  | Some f =>
      if writable f then
        Ok {| returned := markdown_structure;
              printed := [markdown_structure;
                          lit "Repository structure saved to " ++ f];
              written := Some (f, markdown_structure) |}
      else Raise OSError
  | None =>
      Ok {| returned := markdown_structure;
            printed := [markdown_structure];
            written := None |}
  end.

(** *** The walk as the specification describes it *)

(** [_should_ignore] as a boolean. *)
Definition ignored (x : item) : bool :=
  match _should_ignore x with
  | Ok b => b
  | _ => false
  end.

Definition resolvable (x : item) : bool :=
  match determine_file_language (item_path x) with
  | Some _ => true
  | None => false
  end.

(** [str(file_item.relative_to(directory_path))]. *)
Definition rel_path_str (x : item) : str :=
  match relative_to (item_path x) (item_path directory_path) with
  | Ok rel => path_str rel
  | _ => []
  end.

(** Lines for one directory: kept subdirectories in sorted order, each
    followed by its own subtree, then the kept files in sorted order. *)
Fixpoint tree_lines (depth : nat) (directory : item) (prefix indent : str)
  : list line :=
  match depth with
  | 0 => []
  | S depth' =>
      match iterdir directory with
      | PermissionDenied => [PermissionLine prefix indent]
      | ListFailed => []
      | Listed items =>
          let dirs :=
            filter (fun d => negb (ignored d))
                   (sorted_by key_name_lower (filter is_dir items)) in
          let files :=
            filter (fun f => negb (ignored f) && resolvable f)
                   (sorted_by key_name_lower (filter is_file items)) in
          flat_map (fun d => FolderLine prefix indent d
                             :: tree_lines depth' d (prefix ++ indent) indent)
                   dirs
          ++ map (fun f => FileLine prefix indent f
                             (create_anchor_id (rel_path_str f)))
                 files
      end
  end.

(** The exclusion condition in the words of the specification, a
    wildcard character being the star. *)
Definition excluded_by_name (x : item) : Prop :=
  (ignore_hidden = true /\ hidden_pattern_match (item_name x) = true)
  \/ (exists pattern,
        In pattern (match ignore_patterns with Some l => l | None => [] end)
        /\ (pattern = item_name x
            \/ (contains star pattern = true
                /\ fnmatchcase (item_name x) pattern = true))).

(** The exclusion condition with the path match the source performs. *)
Definition excluded_by_path (x : item) : Prop :=
  (ignore_hidden = true /\ hidden_pattern_match (item_name x) = true)
  \/ (exists pattern,
        In pattern (match ignore_patterns with Some l => l | None => [] end)
        /\ (pattern = item_name x
            \/ (contains star pattern = true
                /\ path_match fnmatchcase (item_path x) pattern = Ok true))).

(** Components of a path below the root of the run. *)
Definition below_root (p : path) : list str :=
  skipn (length (p_names (item_path directory_path))) (p_names p).

(** [x] lies at or under the root of the run. *)
Definition under_root (x : item) : Prop :=
  p_root (item_path x) = p_root (item_path directory_path)
  /\ exists comps,
       p_names (item_path x) = p_names (item_path directory_path) ++ comps.

(** [x] has a hidden component below the root: it is a hidden entry or
    lies beneath one. *)
Definition in_hidden_subtree (x : item) : Prop :=
  Exists (fun n => hidden_pattern_match n = true)
         (below_root (item_path x)).

End Run.

End Tool.

(** ** Sample data *)

Module Sample.

(** The entry [root/a/b.py]. *)
Definition b_py : item :=
  {| item_path := {| p_root := [];
                     p_names := [lit "root"; lit "a"; lit "b.py"] |};
     item_node := File (lit "b.py") (ReadOk []) |}.

(** A small repository: a readable and an unsupported file, a directory
    with an unreadable file, a directory holding a hidden directory, a
    directory that refuses listing, and a socket. *)
Definition sample_tree : entry :=
  Dir (lit "root")
    (Listed
       [ File (lit "README.md") (ReadOk (lit "hello" ++ [newline]
                                     ++ lit "world" ++ [newline]));
         File (lit "notes.txt") (ReadOk (lit "x"));
         Dir (lit "b") (Listed [File (lit "z.py") (ReadError (lit "gone"))]);
         Dir (lit "A")
           (Listed
              [ File (lit "b.py") (ReadOk (lit "print(1)"));
                Dir (lit ".git")
                  (Listed [File (lit "x.py") (ReadOk (lit "1"))]) ]);
         Dir (lit "locked") PermissionDenied;
         Other (lit "sock.py") ]).

Definition sample_root : item :=
  {| item_path := {| p_root := []; p_names := [lit "root"] |};
     item_node := sample_tree |}.

(** [root/locked] and [root/b/z.py] as the walk meets them. *)
Definition sample_locked : item :=
  child_item sample_root (Dir (lit "locked") PermissionDenied).

Definition sample_z_py : item :=
  child_item (child_item sample_root
                (Dir (lit "b")
                   (Listed [File (lit "z.py") (ReadError (lit "gone"))])))
    (File (lit "z.py") (ReadError (lit "gone"))).

(** [root/notes.txt], [root/README.md] and [root/A/.git/x.py]. *)
Definition sample_notes : item :=
  child_item sample_root (File (lit "notes.txt") (ReadOk (lit "x"))).

Definition sample_readme : item :=
  child_item sample_root
    (File (lit "README.md")
       (ReadOk (lit "hello" ++ [newline] ++ lit "world" ++ [newline]))).

Definition sample_hidden_x : item :=
  {| item_path := {| p_root := [];
                     p_names := [lit "root"; lit "A"; lit ".git";
                                 lit "x.py"] |};
     item_node := File (lit "x.py") (ReadOk (lit "1")) |}.

Definition sample_readme_record : str * Tool.content_record :=
  (lit "README.md//README.md",
   {| Tool.rec_anchor_id := lit "readme-md";
      Tool.rec_file_path := sample_readme;
      Tool.rec_rel_path := lit "README.md" |}).

Definition sample_z_record : str * Tool.content_record :=
  (lit "b/z.py//z.py",
   {| Tool.rec_anchor_id := lit "b-z-py";
      Tool.rec_file_path := sample_z_py;
      Tool.rec_rel_path := lit "b/z.py" |}).

End Sample.

(** ** Shapes of strings *)

Module Shapes.

(** No dash is directly followed by a dash. *)
Fixpoint no_adjacent_dashes (s : str) : bool :=
  match s with
  | [] => true
  | c :: s' =>
      match s' with
      | [] => true
      | d :: _ =>
          negb ((c =? dash)%N && (d =? dash)%N) && no_adjacent_dashes s'
      end
  end.

(** The characters an anchor may hold. *)
Definition is_slug_char (c : char) : bool :=
  is_lower c || is_digit c || (c =? dash)%N.

End Shapes.

(** ** Views of one run *)

Module Views.
Import Tool.

(** A name a directory listing can yield: not empty, no slash. *)
Definition valid_name (n : str) : bool :=
  negb (str_eqb n []) && negb (contains slash n).

Fixpoint distinct (l : list str) : bool :=
  match l with
  | [] => true
  | x :: l' => negb (existsb (str_eqb x) l') && distinct l'
  end.

(** In every listing at or below [e] the names are valid and pairwise
    different, as a file system has them. *)
Fixpoint well_formed (e : entry) : bool :=
  match e with
  | Dir _ (Listed l) =>
      forallb valid_name (map entry_name l)
      && distinct (map entry_name l)
      && forallb well_formed l
  | _ => true
  end.

(** The file and the anchor a file line shows. *)
Definition link_of_line (l : line) : list (item * str) :=
  match l with
  | FileLine _ _ x anchor_id => [(x, anchor_id)]
  | _ => []
  end.

Definition link_of_record (kv : str * content_record) : item * str :=
  (rec_file_path (snd kv), rec_anchor_id (snd kv)).

Section OneRun.
Variable str_lower : str -> str.
Variable fnmatchcase : str -> str -> bool.
Variable directory_path : item.
Variable ignore_patterns : option (list str).
Variable ignore_hidden : bool.

(** Key and value of the [file_contents] entry written for a file. *)
Definition file_key (x : item) : str :=
  rel_path_str directory_path x ++ lit "//" ++ item_name x.

Definition file_record (x : item) : content_record :=
  {| rec_anchor_id :=
       Anchor.create_anchor_id str_lower (rel_path_str directory_path x);
     rec_file_path := x;
     rec_rel_path := rel_path_str directory_path x |}.

(** The files the walk lists, in the order it meets them. *)
Fixpoint tree_files (depth : nat) (directory : item) : list item :=
  match depth with
  | 0 => []
  | S depth' =>
      match iterdir directory with
      | Listed items =>
          flat_map (tree_files depth')
            (filter (fun d => negb (ignored fnmatchcase ignore_patterns
                                      ignore_hidden d))
                    (sorted_by (key_name_lower str_lower)
                               (filter is_dir items)))
          ++ filter (fun f => negb (ignored fnmatchcase ignore_patterns
                                      ignore_hidden f)
                              && resolvable str_lower f)
                    (sorted_by (key_name_lower str_lower)
                               (filter is_file items))
      | _ => []
      end
  end.

(** The lines of one content section. *)
Definition section_lines (kv : str * content_record) : list line :=
  match Lang.determine_file_language str_lower
          (item_path (rec_file_path (snd kv))) with
  | None => []
  | Some language =>
      [SectionHeading (rec_anchor_id (snd kv));
       FileLabel (rec_rel_path (snd kv));
       Intro (rec_rel_path (snd kv))]
      ++ match read_text (rec_file_path (snd kv)) with
         | ReadOk content =>
             [FenceOpen language; CodeBlock (number_lines content);
              FenceClose; Rule]
         | ReadError msg => [ReadErrorLine msg]
         end
  end.

(** A folder or file line written below directory [d], whose own lines
    have prefix [prefix]: one more [indent] per level below [d]. *)
Definition indented (d : item) (prefix indent : str) (l : line) : Prop :=
  match l with
  | FolderLine p i x | FileLine p i x _ =>
      i = indent /\ under_root directory_path x
      /\ exists k,
           length (below_root directory_path (item_path x))
           = length (below_root directory_path (item_path d)) + S k
           /\ p = prefix ++ concat (repeat indent k)
  | _ => True
  end.

(** Directories the walk enters: the root, and every kept subdirectory
    of a directory it enters and can list. *)
Inductive entered : item -> Prop :=
| entered_root : entered directory_path
| entered_child (d : item) (items : list item) (x : item) :
    entered d ->
    iterdir d = Listed items ->
    In x items ->
    is_dir x = true ->
    ignored fnmatchcase ignore_patterns ignore_hidden x = false ->
    entered x.

End OneRun.

End Views.

(** ** The command line *)

Module Cli.
Import Tool.

(** The namespace [parse_args] returns. *)
Record namespace := {
  arg_path : item;
  arg_output : option str;
  arg_ignore : option (list str);
  arg_show_hidden : bool
}.

Section Main.
Variable str_lower : str -> str.
Variable fnmatchcase : str -> str -> bool.
Variable writable : str -> bool.
Variable max_depth : nat.

(** The script body after argument parsing: what reaches standard
    output, and the file written. *)
Definition main (args : namespace) : res (list str * option (str * str)) :=
  out <- generate_repo_structure_to_markdown str_lower fnmatchcase
           (arg_path args) (arg_output args) (arg_ignore args)
           (negb (arg_show_hidden args)) true writable max_depth ;;
  let result := returned out in
  let no_output :=
    match arg_output args with
    | Some (_ :: _) => false
    | _ => true
    end in
  let nonempty := match result with [] => false | _ => true end in
  Ok (printed out ++ (if no_output && nonempty then [result] else []),
      written out).

End Main.

End Cli.

(** ** More sample data *)

Module MoreSamples.
Import Sample.

Definition archive_tar_gz : path :=
  {| p_root := []; p_names := [lit "root"; lit "archive.tar.gz"] |}.

(** Names that the two orders on strings place differently: by code
    point [B] and [C] come before [a] and [b]. *)
Definition case_tree : entry :=
  Dir (lit "root")
    (Listed
       [ Dir (lit "b") (Listed []);
         File (lit "c.py") (ReadOk []);
         Dir (lit "C") (Listed []);
         File (lit "B.py") (ReadOk []);
         Dir (lit "a") (Listed []);
         File (lit "a.py") (ReadOk []) ]).

Definition case_root : item :=
  {| item_path := {| p_root := []; p_names := [lit "root"] |};
     item_node := case_tree |}.

(** A root holding an entry whose status cannot be read. *)
Definition guarded_tree : entry :=
  Dir (lit "root")
    (Listed [File (lit "a.py") (ReadOk []); NoStat (lit "private")]).

Definition guarded_root : item :=
  {| item_path := {| p_root := []; p_names := [lit "root"] |};
     item_node := guarded_tree |}.

Definition sample_args : Cli.namespace :=
  {| Cli.arg_path := sample_root;
     Cli.arg_output := None;
     Cli.arg_ignore := None;
     Cli.arg_show_hidden := false |}.

End MoreSamples.

(** * Properties *)

Unset Implicit Arguments.

(** ** Strings *)

Module PyStrFacts.

Lemma str_eqb_eq (a b : str) : str_eqb a b = true <-> a = b.
Proof.
  unfold str_eqb. destruct (list_eq_dec N.eq_dec a b); split; congruence.
Qed.

Lemma str_eqb_refl (a : str) : str_eqb a a = true.
Proof. now apply str_eqb_eq. Qed.

Lemma str_eqb_neq (a b : str) : str_eqb a b = false <-> a <> b.
Proof.
  unfold str_eqb. destruct (list_eq_dec N.eq_dec a b); split;
    congruence.
Qed.

Lemma contains_In (c : char) (s : str) : contains c s = true <-> In c s.
Proof.
  unfold contains. rewrite existsb_exists. split.
  - intros (x & Hin & Heq). apply N.eqb_eq in Heq. now subst.
  - intros Hin. exists c. split; [assumption | apply N.eqb_refl].
Qed.

Lemma contains_false (c : char) (s : str) :
  contains c s = false <-> ~ In c s.
Proof.
  rewrite <- contains_In. destruct (contains c s); split; congruence.
Qed.

(** *** The order on keys *)

Lemma str_leb_refl (a : str) : str_leb a a = true.
Proof.
  induction a as [|x a IH]; simpl; [reflexivity|].
  now rewrite N.ltb_irrefl.
Qed.

Lemma str_leb_total (a b : str) : str_leb a b = true \/ str_leb b a = true.
Proof.
  revert b. induction a as [|x a IH]; intros [|y b]; simpl; auto.
  destruct (N.ltb_spec x y), (N.ltb_spec y x); auto; lia.
Qed.

Lemma str_leb_trans (a b c : str) :
  str_leb a b = true -> str_leb b c = true -> str_leb a c = true.
Proof.
  revert b c. induction a as [|x a IH]; intros [|y b] [|z c]; simpl;
    try congruence.
  destruct (N.ltb_spec x y), (N.ltb_spec y x), (N.ltb_spec y z),
    (N.ltb_spec z y), (N.ltb_spec x z), (N.ltb_spec z x);
    try congruence; try lia.
  apply IH.
Qed.

Lemma str_leb_le (a b : str) : str_leb a b = true <-> str_le a b.
Proof.
  revert b. induction a as [|x a IH]; intros [|y b]; simpl.
  - split; [constructor | reflexivity].
  - split; [constructor | reflexivity].
  - split; [discriminate | inversion 1].
  - destruct (N.ltb_spec x y) as [Hlt|Hge].
    + split; [intros _; now constructor | reflexivity].
    + destruct (N.ltb_spec y x) as [Hlt'|Hge'].
      * split; [discriminate|]. inversion 1; subst; lia.
      * assert (x = y) by lia. subst y. rewrite IH.
        split; [now constructor|]. inversion 1; subst; [lia | assumption].
Qed.

Lemma StronglySorted_weaken {A} (R R' : A -> A -> Prop) (l : list A) :
  (forall a b, R a b -> R' a b) ->
  StronglySorted R l -> StronglySorted R' l.
Proof.
  intros HR. induction 1 as [|x l _ IH Hall]; constructor; [exact IH|].
  eapply Forall_impl; [|exact Hall]. intros b. apply HR.
Qed.

(** *** [sorted] *)

Section SortedBy.
Variable A : Type.
Variable key : A -> str.

Local Abbreviation key_le := (PyStr.key_le key).

Lemma insert_by_perm (x : A) (l : list A) :
  Permutation (insert_by key x l) (x :: l).
Proof.
  induction l as [|y l IH]; simpl; [reflexivity|].
  destruct (str_leb (key x) (key y)); [reflexivity|].
  rewrite IH. apply perm_swap.
Qed.

Lemma sorted_by_perm (l : list A) : Permutation (sorted_by key l) l.
Proof.
  induction l as [|x l IH]; simpl; [reflexivity|].
  rewrite insert_by_perm. now constructor.
Qed.

Lemma sorted_by_In (x : A) (l : list A) : In x (sorted_by key l) <-> In x l.
Proof.
  split; apply Permutation_in;
    [apply sorted_by_perm | symmetry; apply sorted_by_perm].
Qed.

Lemma insert_by_sorted (x : A) (l : list A) :
  StronglySorted key_le l -> StronglySorted key_le (insert_by key x l).
Proof.
  induction 1 as [|y l Hs IH Hall]; simpl.
  - repeat constructor.
  - destruct (str_leb (key x) (key y)) eqn:E.
    + constructor; [now constructor|].
      constructor; [exact E|].
      eapply Forall_impl; [|exact Hall].
      intros z Hz. unfold PyStr.key_le in *. eapply str_leb_trans; eauto.
    + constructor; [exact IH|].
      assert (Hyx : key_le y x).
      { destruct (str_leb_total (key x) (key y)); [congruence|assumption]. }
      eapply Permutation_Forall.
      * symmetry. apply insert_by_perm.
      * now constructor.
  Qed.

Lemma sorted_by_sorted (l : list A) : StronglySorted key_le (sorted_by key l).
Proof.
  induction l as [|x l IH]; simpl; [constructor|].
  now apply insert_by_sorted.
Qed.

End SortedBy.

(** *** [split] and [join] *)

Lemma split_nonempty (c : char) (s : str) : split c s <> [].
Proof.
  destruct s as [|x s]; simpl; [discriminate|].
  destruct (x =? c)%N; [discriminate|].
  destruct (split c s); discriminate.
Qed.

Lemma split_no_sep (c : char) (s : str) :
  Forall (fun w => ~ In c w) (split c s).
Proof.
  induction s as [|x s IH]; simpl.
  - constructor; [intros []|constructor].
  - destruct (N.eqb_spec x c) as [->|Hne].
    + constructor; [intros []|exact IH].
    + destruct (split c s) as [|w ws]; inversion IH; subst;
        constructor; simpl; try intros [|]; try tauto; try congruence.
Qed.

Lemma split_without_sep (c : char) (s : str) :
  ~ In c s -> split c s = [s].
Proof.
  induction s as [|x s IH]; simpl; intros Hn; [reflexivity|].
  destruct (N.eqb_spec x c) as [->|Hne]; [tauto|].
  rewrite IH by tauto. reflexivity.
Qed.

Lemma split_app_sep (c : char) (w rest : str) :
  ~ In c w -> split c (w ++ c :: rest) = w :: split c rest.
Proof.
  induction w as [|x w IH]; simpl; intros Hn.
  - now rewrite N.eqb_refl.
  - destruct (N.eqb_spec x c) as [->|Hne]; [tauto|].
    rewrite IH by tauto. reflexivity.
Qed.

Lemma split_join (c : char) (l : list str) :
  l <> [] -> Forall (fun w => ~ In c w) l -> split c (join [c] l) = l.
Proof.
  induction l as [|w l IH]; [congruence|].
  intros _ Hall. inversion Hall as [|? ? Hw Hl]; subst.
  destruct l as [|w' l'].
  - simpl. now apply split_without_sep.
  - change (join [c] (w :: w' :: l')) with (w ++ c :: join [c] (w' :: l')).
    rewrite split_app_sep by assumption.
    f_equal. apply IH; [discriminate|assumption].
Qed.

(** Some part of [split c s] holds any character of [s] other than the
    separator. *)
Lemma in_split (c x : char) (s : str) :
  In x s -> x <> c -> exists w, In w (split c s) /\ In x w.
Proof.
  induction s as [|y s IH]; simpl; [tauto|].
  intros Hin Hne.
  destruct (N.eqb_spec y c) as [->|Hyc].
  - destruct Hin as [->|Hin]; [congruence|].
    destruct (IH Hin Hne) as (w & Hw & Hx). exists w. simpl. auto.
  - destruct Hin as [->|Hin].
    + destruct (split c s) as [|w ws]; eexists; split; simpl; eauto;
        simpl; auto.
    + destruct (IH Hin Hne) as (w & Hw & Hx).
      destruct (split c s) as [|w0 ws]; [destruct Hw|].
      destruct Hw as [->|Hw].
      * exists (y :: w). simpl. auto.
      * exists w. simpl. auto.
Qed.

Lemma dropwhile_In (p : char -> bool) (x : char) (s : str) :
  In x s -> p x = false -> In x (dropwhile p s).
Proof.
  induction s as [|y s IH]; simpl; [tauto|].
  intros [->|Hin] Hp.
  - rewrite Hp. now left.
  - destruct (p y); [now apply IH | now right].
Qed.

(** *** Decimal numerals *)

Lemma uint_digits_no_newline (d : Decimal.uint) :
  ~ In newline (lit (NilEmpty.string_of_uint d)).
Proof.
  induction d as [|d IH|d IH|d IH|d IH|d IH|d IH|d IH|d IH|d IH|d IH];
    simpl; [intros [] | ..];
    (intros [H|H]; [discriminate H | exact (IH H)]).
Qed.

Lemma str_of_nat_no_newline (n : nat) : ~ In newline (str_of_nat n).
Proof.
  unfold str_of_nat, NilZero.string_of_uint.
  destruct (Nat.to_uint n) eqn:E;
    try (rewrite <- E; apply uint_digits_no_newline).
  simpl. intros [H|[]]. discriminate H.
Qed.

End PyStrFacts.
Import PyStrFacts.

(** ** Anchor identifiers *)

Module AnchorFacts.
Import Anchor.

Lemma sub_dash_runs_collapse (s : str) :
  sub_dash_runs_from false s = collapse_dashes s
  /\ dash :: sub_dash_runs_from true s = collapse_dashes (dash :: s).
Proof.
  induction s as [|c s [IH1 IH2]]; [split; reflexivity|].
  destruct (N.eqb_spec c dash) as [->|Hne].
  - split.
    + simpl sub_dash_runs_from. exact IH2.
    + simpl sub_dash_runs_from. rewrite IH2. reflexivity.
  - assert (E : (c =? dash)%N = false) by now apply N.eqb_neq.
    assert (Hc : collapse_dashes (c :: s) = c :: collapse_dashes s).
    { simpl. rewrite E. simpl. now destruct s. }
    split.
    + simpl sub_dash_runs_from. rewrite E, IH1. now rewrite Hc.
    + simpl sub_dash_runs_from. rewrite E, IH1.
      change (collapse_dashes (dash :: c :: s))
        with (if (dash =? dash)%N && (c =? dash)%N
              then collapse_dashes (c :: s)
              else dash :: collapse_dashes (c :: s)).
      rewrite E, Hc. reflexivity.
Qed.

Lemma sub_non_alnum_lowered (s : str) :
  (forall c, In c s -> is_upper c = false) ->
  sub_non_alnum s = outside_az09_to_dash s.
Proof.
  intros H. apply map_ext_in. intros c Hc. rewrite (H c Hc).
  now rewrite orb_false_r.
Qed.

Lemma ascii_lower_no_upper (s : str) (c : char) :
  In c (ascii_lower s) -> is_upper c = false.
Proof.
  unfold ascii_lower. rewrite in_map_iff. intros (x & <- & _).
  unfold ascii_lower_char, is_upper.
  destruct (N.leb_spec 65 x), (N.leb_spec x 90); simpl;
    try (destruct (N.leb_spec 65 x), (N.leb_spec x 90); simpl; lia || reflexivity).
  destruct (N.leb_spec 65 (x + 32)), (N.leb_spec (x + 32) 90); simpl;
    lia || reflexivity.
Qed.

Lemma lstrip_leading (s : str) :
  lstrip_by (N.eqb dash) s = strip_leading_dashes s.
Proof.
  induction s as [|c s IH]; [reflexivity|].
  unfold lstrip_by in *. cbn [dropwhile strip_leading_dashes].
  rewrite (N.eqb_sym dash c). now destruct (c =? dash)%N.
Qed.

Lemma dropwhile_snoc (p : char -> bool) (s : str) (c : char) :
  dropwhile p (s ++ [c])
  = match dropwhile p s with
    | [] => if p c then [] else [c]
    | kept => kept ++ [c]
    end.
Proof.
  induction s as [|x s IH]; [reflexivity|].
  simpl. destruct (p x); [exact IH | reflexivity].
Qed.

Lemma rstrip_trailing_dashes (s : str) :
  rstrip_by (N.eqb dash) s = strip_trailing_dashes s.
Proof.
  unfold rstrip_by. induction s as [|c s IH]; [reflexivity|].
  cbn [rev strip_trailing_dashes]. rewrite dropwhile_snoc, <- IH.
  rewrite (N.eqb_sym dash c).
  destruct (dropwhile (N.eqb dash) (rev s)) as [|y kept].
  - now destruct (c =? dash)%N.
  - rewrite rev_app_distr. cbn [rev app].
    now destruct (rev kept).
Qed.

(** C9. For every input string, [create_anchor_id] returns the string
    lowercased, with every character outside [a-z0-9] replaced by a dash,
    consecutive dashes collapsed to one, and leading and trailing dashes
    stripped; equal inputs give equal anchors.  [str.lower] leaves no
    ASCII capital behind, which is what makes the source's class
    [a-zA-Z0-9] agree with [a-z0-9]. *)
Theorem create_anchor_id_is_slug (str_lower : str -> str)
    (lower_no_upper : forall s c, In c (str_lower s) -> is_upper c = false)
    (filename : str) :
  create_anchor_id str_lower filename = slug_spec str_lower filename
  /\ forall again, again = filename ->
       create_anchor_id str_lower again = create_anchor_id str_lower filename.
Proof.
  split; [|now intros ? ->].
  unfold create_anchor_id, slug_spec, sub_dash_runs, strip_dashes.
  rewrite sub_non_alnum_lowered by apply lower_no_upper.
  rewrite (proj1 (sub_dash_runs_collapse _)).
  now rewrite rstrip_trailing_dashes, lstrip_leading.
Qed.

Lemma create_anchor_id_is_slug_witness :
  create_anchor_id ascii_lower (lit "__Src/My__File.PY--")
  = slug_spec ascii_lower (lit "__Src/My__File.PY--")
  /\ create_anchor_id ascii_lower (lit "__Src/My__File.PY--")
     = lit "src-my-file-py".
Proof.
  split.
  - apply (create_anchor_id_is_slug ascii_lower ascii_lower_no_upper).
  - reflexivity.
Defined.

End AnchorFacts.

(** ** Line numbering *)

Module NumberingFacts.
Import Tool.

Lemma nth_error_enumerate {A B} (f : nat * A -> B) (l : list A) :
  forall start i,
    nth_error (map f (enumerate start l)) i
    = option_map (fun x => f (start + i, x)) (nth_error l i).
Proof.
  induction l as [|x l IH]; intros start [|i]; simpl; try reflexivity.
  - now rewrite Nat.add_0_r.
  - rewrite IH. now rewrite Nat.add_succ_r.
Qed.

Lemma length_enumerate {A} (l : list A) (start : nat) :
  length (enumerate start l) = length l.
Proof.
  revert start. induction l as [|x l IH]; intros start; simpl;
    [reflexivity | now rewrite IH].
Qed.

Lemma number_lines_no_newline (content : str) :
  Forall (fun w => ~ In newline w) (number_lines content).
Proof.
  unfold number_lines.
  pose proof (split_no_sep newline (rstrip content)) as H.
  revert H. generalize (split newline (rstrip content)). intros l.
  generalize 1. induction l as [|w l IH]; intros start Hall; simpl;
    constructor.
  - inversion Hall as [|? ? Hw Hl]; subst. simpl fst. simpl snd.
    intros H. apply in_app_or in H. destruct H as [H|H].
    + now apply str_of_nat_no_newline in H.
    + simpl in H. destruct H as [H|[H|H]];
        [discriminate H | discriminate H | tauto].
  - apply IH. now inversion Hall.
Qed.

(** C5. For a file with text [content], let the lines be those of
    [content] split at newlines after trailing whitespace is trimmed.
    The code block emitted for the file has exactly as many lines, and
    line [i] (from 1) is the decimal [i], [": "] and the file's line
    [i]. *)
Theorem numbered_block_lines (str_lower : str -> str) (content : str) :
  let content_lines := split newline (rstrip content) in
  length (number_lines content) = length content_lines
  /\ (forall i,
        nth_error (number_lines content) i
        = option_map (fun line => str_of_nat (S i) ++ lit ": " ++ line)
                     (nth_error content_lines i))
  /\ split newline (render (CodeBlock (number_lines content)))
     = number_lines content
  /\ (forall kv result language,
        Lang.determine_file_language str_lower
          (item_path (rec_file_path (snd kv))) = Some language ->
        read_text (rec_file_path (snd kv)) = ReadOk content ->
        emit_file str_lower kv result
        = Ok (result
              ++ [SectionHeading (rec_anchor_id (snd kv));
                  FileLabel (rec_rel_path (snd kv));
                  Intro (rec_rel_path (snd kv));
                  FenceOpen language;
                  CodeBlock (number_lines content);
                  FenceClose; Rule])).
Proof.
  cbv zeta. repeat split.
  - unfold number_lines. now rewrite length_map, length_enumerate.
  - intros i. unfold number_lines. now rewrite nth_error_enumerate.
  - simpl render. apply split_join.
    + unfold number_lines.
      pose proof (split_nonempty newline (rstrip content)) as Hne.
      destruct (split newline (rstrip content)); [congruence|discriminate].
    + apply number_lines_no_newline.
  - intros kv result language Hlang Hread. unfold emit_file.
    rewrite Hlang, Hread. rewrite <- !app_assoc. reflexivity.
Qed.

Lemma numbered_block_lines_witness :
  number_lines (lit "hello" ++ [newline] ++ lit "world" ++ [newline])
  = [lit "1: hello"; lit "2: world"]
  /\ emit_file ascii_lower Sample.sample_readme_record []
     = Ok [SectionHeading (lit "readme-md");
           FileLabel (lit "README.md");
           Intro (lit "README.md");
           FenceOpen (lit "markdown");
           CodeBlock
             (number_lines
                (lit "hello" ++ [newline] ++ lit "world" ++ [newline]));
           FenceClose; Rule].
Proof.
  split; [reflexivity|].
  exact (proj2 (proj2 (proj2
           (numbered_block_lines ascii_lower
              (lit "hello" ++ [newline] ++ lit "world" ++ [newline]))))
           Sample.sample_readme_record [] (lit "markdown")
           eq_refl eq_refl).
Defined.

End NumberingFacts.

(** ** The ignore filter *)

Module IgnoreFacts.
Import Tool Sample.

Section Filter.
Variable fnmatchcase : str -> str -> bool.
Variable ignore_patterns : option (list str).
Variable ignore_hidden : bool.

Local Abbreviation should_ignore :=
  (_should_ignore fnmatchcase ignore_patterns ignore_hidden).
Local Abbreviation patterns :=
  (match ignore_patterns with Some l => l | None => [] end).

(** A pattern with a star has at least one part, so [Path.match] does not
    reject it as empty. *)
Lemma parse_parts_star (pattern : str) :
  contains star pattern = true -> snd (parse_parts pattern) <> [].
Proof.
  intros Hstar. apply contains_In in Hstar.
  assert (Hs : In star (lstrip_by (N.eqb slash) pattern)).
  { apply dropwhile_In; [assumption | reflexivity]. }
  destruct (@in_split slash star _ Hs) as (w & Hw & Hin); [discriminate|].
  unfold parse_parts.
  set (parsed := filter _ _).
  assert (Hp : In w parsed).
  { apply filter_In. split; [exact Hw|].
    apply andb_true_iff; split; apply negb_true_iff, str_eqb_neq;
      intros ->; simpl in Hin; intuition discriminate. }
  simpl. destruct (match pattern with [] => _ | _ :: _ => _ end);
    [|discriminate].
  intros E. rewrite E in Hp. destruct Hp.
Qed.

Lemma path_match_total (p : path) (pattern : str) :
  contains star pattern = true ->
  exists b, path_match fnmatchcase p pattern = Ok b.
Proof.
  intros Hstar. pose proof (parse_parts_star pattern Hstar) as Hne.
  unfold path_match. destruct (parse_parts pattern) as [root pat_parts].
  simpl in Hne. destruct pat_parts as [|pp pat_tail]; [congruence|].
  repeat match goal with
         | |- context [if ?c then _ else _] => destruct c
         end; eauto.
Qed.

(** On a pattern without a slash, [Path.match] is [fnmatchcase] on the
    last component. *)
Lemma path_match_slash_free (p : path) (pattern : str) :
  p_names p <> [] ->
  contains star pattern = true ->
  contains slash pattern = false ->
  path_match fnmatchcase p pattern = Ok (fnmatchcase (name p) pattern).
Proof.
  intros Hnames Hstar Hslash.
  apply contains_false in Hslash. apply contains_In in Hstar.
  assert (Hstrip : lstrip_by (N.eqb slash) pattern = pattern).
  { destruct pattern as [|c s]; [reflexivity|].
    unfold lstrip_by. cbn [dropwhile].
    destruct (N.eqb_spec slash c) as [<-|_]; [|reflexivity].
    exfalso. apply Hslash. now left. }
  assert (Hroot : match pattern with
                  | [] => []
                  | c :: _ =>
                      if (c =? slash)%N
                      then if length pattern
                              - length (lstrip_by (N.eqb slash) pattern) =? 2
                           then [slash; slash] else [slash]
                      else []
                  end = ([] : str)).
  { destruct pattern as [|c s]; [reflexivity|].
    destruct (N.eqb_spec c slash) as [->|_]; [|reflexivity].
    exfalso. apply Hslash. now left. }
  unfold path_match, parse_parts. rewrite Hroot, Hstrip.
  rewrite (split_without_sep _ _ Hslash). simpl filter.
  assert (E1 : str_eqb pattern [] = false).
  { apply str_eqb_neq. intros ->. destruct Hstar. }
  assert (E2 : str_eqb pattern [dot] = false).
  { apply str_eqb_neq. intros ->. simpl in Hstar. intuition discriminate. }
  rewrite E1, E2. simpl negb. simpl andb. cbv iota beta.
  assert (Hparts : exists front, parts p = front ++ [name p]).
  { unfold parts, name.
    destruct (exists_last Hnames) as (front & x & ->).
    rewrite last_last.
    destruct (p_root p); [exists front | exists ((c :: s) :: front)];
      reflexivity. }
  destruct Hparts as (front & ->).
  rewrite length_app. simpl length.
  replace (length front + 1 <? 1) with false
    by (symmetry; apply Nat.ltb_ge; lia).
  unfold match_reversed. rewrite rev_app_distr. simpl.
  destruct (rev front); simpl; now rewrite andb_true_r.
Qed.

Lemma ignore_loop_spec (x : item) (pats : list str) :
  exists b,
    ignore_loop fnmatchcase x pats = Ok b
    /\ (b = true <->
        exists pattern,
          In pattern pats
          /\ (pattern = item_name x
              \/ (contains star pattern = true
                  /\ path_match fnmatchcase (item_path x) pattern
                     = Ok true))).
Proof.
  induction pats as [|pattern rest (b & Hb & IH)]; simpl.
  - exists false. split; [reflexivity|].
    split; [discriminate | intros (? & [] & _)].
  - destruct (str_eqb pattern (item_name x)) eqn:Eeq.
    { exists true. split; [reflexivity|]. split; [|reflexivity].
      intros _. exists pattern. apply str_eqb_eq in Eeq. auto. }
    apply str_eqb_neq in Eeq.
    destruct (contains star pattern) eqn:Estar.
    + destruct (path_match_total (item_path x) pattern Estar) as (m & Hm).
      rewrite Hm. simpl. destruct m.
      * exists true. split; [reflexivity|]. split; [|reflexivity].
        intros _. exists pattern. auto.
      * exists b. split; [exact Hb|]. rewrite IH.
        split; intros (q & Hq & Hc).
        -- exists q. auto.
        -- destruct Hq as [<-|Hq]; [|exists q; auto].
           destruct Hc as [Hc|[_ Hc]]; congruence.
    + exists b. split; [exact Hb|]. rewrite IH.
      split; intros (q & Hq & Hc).
      * exists q. auto.
      * destruct Hq as [<-|Hq]; [|exists q; auto].
        destruct Hc as [Hc|[Hc _]]; congruence.
Qed.

(** [_should_ignore] never raises: it decides [ignored]. *)
Lemma should_ignore_total (x : item) :
  should_ignore x = Ok (ignored fnmatchcase ignore_patterns ignore_hidden x).
Proof.
  unfold ignored, _should_ignore.
  destruct (ignore_hidden && hidden_pattern_match (item_name x));
    [reflexivity|].
  destruct ignore_patterns as [pats|]; [|reflexivity].
  destruct (ignore_loop_spec x pats) as (b & -> & _). reflexivity.
Qed.

(** C1, amended.  The filter always answers, and it excludes an entry
    exactly when [ignore_hidden] is set and the name starts with a dot, or
    some pattern equals the name, or some pattern containing a star
    matches the entry's path under [Path.match]; for a pattern without a
    slash that match is the shell-glob match of the pattern against the
    name. *)
Theorem should_ignore_excludes_by_path (x : item) :
  p_names (item_path x) <> [] ->
  (exists b,
     should_ignore x = Ok b
     /\ (b = true <->
         excluded_by_path fnmatchcase ignore_patterns ignore_hidden x))
  /\ (forall pattern,
        contains star pattern = true ->
        contains slash pattern = false ->
        path_match fnmatchcase (item_path x) pattern
        = Ok (fnmatchcase (item_name x) pattern)).
Proof.
  intros Hnames. split.
  - unfold _should_ignore, excluded_by_path.
    destruct (ignore_hidden && hidden_pattern_match (item_name x)) eqn:Eh.
    { exists true. split; [reflexivity|]. split; [|reflexivity].
      intros _. left. now apply andb_true_iff. }
    assert (Hnh : ~ (ignore_hidden = true
                     /\ hidden_pattern_match (item_name x) = true)).
    { rewrite <- andb_true_iff. congruence. }
    destruct ignore_patterns as [pats|].
    + destruct (ignore_loop_spec x pats) as (b & Hb & Hiff).
      exists b. split; [exact Hb|]. rewrite Hiff. tauto.
    + exists false. split; [reflexivity|].
      split; [discriminate|]. intros [H|(? & [] & _)]. tauto.
  - intros pattern Hstar Hslash.
    now apply path_match_slash_free.
Qed.

End Filter.

Lemma should_ignore_excludes_by_path_witness :
  p_names (item_path b_py) <> []
  /\ (exists b,
        _should_ignore simple_fnmatchcase (Some [lit "a/*"]) true b_py = Ok b
        /\ (b = true <->
            excluded_by_path simple_fnmatchcase (Some [lit "a/*"]) true
              b_py)).
Proof.
  assert (H : p_names (item_path b_py) <> []) by discriminate.
  split; [exact H|].
  exact (proj1 (should_ignore_excludes_by_path simple_fnmatchcase
                  (Some [lit "a/*"]) true b_py H)).
Defined.

(** C1 as stated fails: the pattern [a/*] excludes [root/a/b.py], whose
    name [b.py] it neither equals nor matches as a shell glob, and the
    name is not hidden. *)
Lemma should_ignore_not_by_name :
  _should_ignore simple_fnmatchcase (Some [lit "a/*"]) true b_py = Ok true
  /\ ~ excluded_by_name simple_fnmatchcase (Some [lit "a/*"]) true b_py.
Proof.
  split; [reflexivity|].
  intros [[_ H]|(pattern & [<-|[]] & [H|[_ H]])]; discriminate H.
Qed.

End IgnoreFacts.

(** ** Loops *)

Module LoopFacts.

Lemma for_each_inv {A S} (I : S -> Prop) (l : list A)
    (body : A -> S -> res S) :
  (forall x s s', In x l -> I s -> body x s = Ok s' -> I s') ->
  forall s s', I s -> for_each l body s = Ok s' -> I s'.
Proof.
  induction l as [|x l IH]; simpl; intros Hbody s s' Hs Hrun.
  - now inversion Hrun; subst.
  - destruct (body x s) as [s1|] eqn:E; simpl in Hrun; try discriminate.
    eapply IH; [| |exact Hrun]; eauto.
Qed.

Lemma for_each_total {A S} (I : S -> Prop) (l : list A)
    (body : A -> S -> res S) :
  (forall x s, In x l -> I s -> exists s', body x s = Ok s' /\ I s') ->
  forall s, I s -> exists s', for_each l body s = Ok s' /\ I s'.
Proof.
  induction l as [|x l IH]; simpl; intros Hbody s Hs.
  - eauto.
  - destruct (Hbody x s) as (s1 & E & H1); auto.
    rewrite E. simpl. apply IH; auto.
Qed.

(** A loop whose body only appends appends the concatenation. *)
Lemma for_each_appends {A S L} (proj : S -> list L) (g : A -> list L)
    (l : list A) (body : A -> S -> res S) :
  (forall x s s', In x l -> body x s = Ok s' -> proj s' = proj s ++ g x) ->
  forall s s', for_each l body s = Ok s' -> proj s' = proj s ++ flat_map g l.
Proof.
  induction l as [|x l IH]; simpl; intros Hbody s s' Hrun.
  - inversion Hrun; subst. now rewrite app_nil_r.
  - destruct (body x s) as [s1|] eqn:E; simpl in Hrun; try discriminate.
    rewrite (IH (fun y a b Hy => Hbody y a b (or_intror Hy)) _ _ Hrun).
    rewrite (Hbody x s s1 (or_introl eq_refl) E).
    now rewrite app_assoc.
Qed.

Lemma flat_map_filter {A L} (keep : A -> bool) (g : A -> list L)
    (l : list A) :
  flat_map (fun x => if keep x then g x else []) l
  = flat_map g (filter keep l).
Proof.
  induction l as [|x l IH]; simpl; [reflexivity|].
  destruct (keep x); simpl; now rewrite IH.
Qed.

Lemma flat_map_singleton {A L} (f : A -> L) (l : list A) :
  flat_map (fun x => [f x]) l = map f l.
Proof. induction l; simpl; congruence. Qed.

End LoopFacts.
Import LoopFacts.

(** ** The tree walk *)

Module WalkFacts.
Import Tool IgnoreFacts.

Lemma dict_set_Forall {V} (P : str * V -> Prop) (d : list (str * V))
    (k : str) (v : V) :
  Forall P d -> P (k, v) -> Forall P (dict_set d k v).
Proof.
  induction 1 as [|[k' v'] d Hh Ht IH]; simpl; intros Hkv.
  - now repeat constructor.
  - destruct (str_eqb k' k); constructor; auto.
Qed.

Lemma item_name_child (d : item) (e : entry) :
  item_name (child_item d e) = entry_name e.
Proof. unfold item_name, name. simpl. apply last_last. Qed.

Lemma iterdir_children (d : item) (items : list item) (x : item) :
  iterdir d = Listed items -> In x items ->
  exists e l n,
    item_node d = Dir n (Listed l) /\ In e l /\ x = child_item d e.
Proof.
  unfold iterdir. destruct (item_node d) as [| n [l| |] | |]; try discriminate.
  intros [= <-] Hin. apply in_map_iff in Hin.
  destruct Hin as (e & <- & He). eauto 6.
Qed.

Section Walk.
Variable str_lower : str -> str.
Variable fnmatchcase : str -> str -> bool.
Variable directory_path : item.
Variable ignore_patterns : option (list str).
Variable ignore_hidden : bool.
Variable include_file_contents : bool.
Variable max_depth : nat.

Local Abbreviation build_tree :=
  (_build_tree str_lower fnmatchcase directory_path ignore_patterns
     ignore_hidden include_file_contents).
Local Abbreviation ignored := (ignored fnmatchcase ignore_patterns ignore_hidden).
Local Abbreviation language_of :=
  (fun x : item => determine_file_language str_lower (item_path x)).
Local Abbreviation anchor_of :=
  (fun rel : path => Anchor.create_anchor_id str_lower (path_str rel)).

(** *** One call of the walk *)

Lemma select_stat (kind : item -> bool) (items : list item) :
  select (fun i => if can_stat i then Ok (kind i) else Raise OSError) items
  = if forallb can_stat items then Ok (filter kind items)
    else Raise OSError.
Proof.
  induction items as [|x items IH]; simpl; [reflexivity|].
  destruct (can_stat x); simpl; [|reflexivity].
  rewrite IH. destruct (forallb can_stat items); reflexivity.
Qed.

Lemma build_tree_step (fuel : nat) (d : item) (prefix indent : str)
    (st : state) :
  build_tree (S fuel) d prefix indent st
  = match iterdir d with
    | PermissionDenied => Ok (append (PermissionLine prefix indent) st)
    | ListFailed => Raise OSError
    | Listed items =>
        if forallb can_stat items then
          st1 <- for_each
                   (sorted_by (key_name_lower str_lower)
                      (filter is_dir items))
                   (dir_step fnmatchcase ignore_patterns ignore_hidden
                      (build_tree fuel) prefix indent) st ;;
          for_each
            (sorted_by (key_name_lower str_lower) (filter is_file items))
            (file_step str_lower fnmatchcase directory_path
               ignore_patterns ignore_hidden include_file_contents
               prefix indent) st1
        else Raise OSError
    end.
Proof.
  cbn [_build_tree]. destruct (iterdir d) as [items| |]; try reflexivity.
  unfold path_is_dir, path_is_file. rewrite !select_stat.
  destruct (forallb can_stat items); reflexivity.
Qed.

(** *** Invariants of the walk *)

Section Invariant.
Variable Qd : item -> Prop.
Variable PL : line -> Prop.
Variable PR : str * content_record -> Prop.

Local Abbreviation state_ok := (Tool.state_ok PL PR).

Hypothesis permission_ok : forall prefix indent,
  PL (PermissionLine prefix indent).
Hypothesis folder_ok : forall d items x prefix indent,
  Qd d -> iterdir d = Listed items -> In x items -> is_dir x = true ->
  ignored x = false ->
  PL (FolderLine prefix indent x) /\ Qd x.
Hypothesis file_ok : forall d items x prefix indent language rel,
  Qd d -> iterdir d = Listed items -> In x items -> is_file x = true ->
  ignored x = false ->
  language_of x = Some language ->
  relative_to (item_path x) (item_path directory_path) = Ok rel ->
  PL (FileLine prefix indent x (anchor_of rel))
  /\ PR (path_str rel ++ lit "//" ++ item_name x,
         {| rec_anchor_id := anchor_of rel;
            rec_file_path := x;
            rec_rel_path := path_str rel |}).

Lemma append_ok (l : line) (st : state) :
  PL l -> state_ok st -> state_ok (append l st).
Proof.
  intros Hl [Hr Hf]. split; simpl; [|exact Hf].
  apply Forall_app. split; [exact Hr | now constructor].
Qed.

Lemma file_step_ok (d : item) (items : list item) (prefix indent : str)
    (x : item) (st st' : state) :
  Qd d -> iterdir d = Listed items -> In x items -> is_file x = true ->
  state_ok st ->
  file_step str_lower fnmatchcase directory_path ignore_patterns
    ignore_hidden include_file_contents prefix indent x st = Ok st' ->
  state_ok st'.
Proof.
  intros Hd Hls Hin Hfile Hst. unfold file_step.
  rewrite should_ignore_total. simpl.
  destruct (ignored x) eqn:Eign; [now intros [= <-]|].
  destruct (language_of x) as [language|] eqn:Elang; [|now intros [= <-]].
  destruct (relative_to (item_path x) (item_path directory_path))
    as [rel|] eqn:Erel; simpl; try discriminate.
  destruct (file_ok d items x prefix indent language rel) as [HL HR]; auto.
  destruct include_file_contents; intros [= <-].
  - destruct (append_ok _ st HL Hst) as [Hr Hf].
    split; simpl; [exact Hr|]. now apply dict_set_Forall.
  - now apply append_ok.
Qed.

Lemma build_tree_ok (fuel : nat) :
  forall d prefix indent st st',
    Qd d -> state_ok st ->
    build_tree fuel d prefix indent st = Ok st' ->
    state_ok st'.
Proof.
  induction fuel as [|fuel IH]; intros d prefix indent st st' Hd Hst;
    [discriminate|].
  rewrite build_tree_step.
  destruct (iterdir d) as [items| |] eqn:Els; try discriminate.
  - destruct (forallb can_stat items); [|discriminate].
    destruct (for_each _ _ st) as [st1|] eqn:Edirs; simpl;
      try discriminate.
    intros Hfiles.
    assert (H1 : state_ok st1).
    { eapply (for_each_inv state_ok); [|exact Hst|exact Edirs].
      intros x s s' Hx Hs. unfold dir_step.
      rewrite should_ignore_total. simpl.
      apply sorted_by_In, filter_In in Hx. destruct Hx as [Hx Hxd].
      destruct (ignored x) eqn:Eign; [now intros [= <-]|].
      destruct (folder_ok d items x prefix indent) as [HL HQ]; auto.
      apply IH; [exact HQ | now apply append_ok]. }
    eapply (for_each_inv state_ok); [|exact H1|exact Hfiles].
    intros x s s' Hx Hs.
    apply sorted_by_In, filter_In in Hx. destruct Hx as [Hx Hxf].
    now apply (file_step_ok d items).
  - intros [= <-]. now apply append_ok.
Qed.

End Invariant.

(** *** Paths below the root *)

Lemma strip_prefix_app (base comps : list str) :
  strip_prefix base (base ++ comps) = Some comps.
Proof.
  induction base as [|b base IH]; simpl; [reflexivity|].
  now rewrite str_eqb_refl.
Qed.

Lemma under_root_root : under_root directory_path directory_path.
Proof. split; [reflexivity|]. exists []. now rewrite app_nil_r. Qed.

Lemma under_root_child (d : item) (e : entry) :
  under_root directory_path d -> under_root directory_path (child_item d e).
Proof.
  intros [Hr (comps & Hn)]. split; [exact Hr|].
  exists (comps ++ [entry_name e]). simpl. rewrite Hn. now rewrite app_assoc.
Qed.

Lemma below_root_child (d : item) (e : entry) :
  under_root directory_path d ->
  below_root directory_path (item_path (child_item d e))
  = below_root directory_path (item_path d) ++ [entry_name e].
Proof.
  intros [_ (comps & Hn)]. unfold below_root. simpl. rewrite Hn.
  rewrite <- app_assoc.
  rewrite !skipn_app, skipn_all, Nat.sub_diag. reflexivity.
Qed.

Lemma below_root_root :
  below_root directory_path (item_path directory_path) = [].
Proof. unfold below_root. apply skipn_all. Qed.

Lemma relative_to_under_root (x : item) :
  under_root directory_path x ->
  exists rel,
    relative_to (item_path x) (item_path directory_path) = Ok rel.
Proof.
  intros [Hr (comps & Hn)]. unfold relative_to.
  rewrite Hr, str_eqb_refl, Hn, strip_prefix_app. eauto.
Qed.

(** *** The walk returns *)

Lemma height_child (e : entry) (l : list entry) :
  In e l -> height e <= fold_right (fun c h => Nat.max (height c) h) 0 l.
Proof.
  induction l as [|c l IH]; simpl; [tauto|].
  intros [->|Hin]; [lia|]. specialize (IH Hin). lia.
Qed.

Lemma file_step_total (prefix indent : str) (x : item) (st : state) :
  under_root directory_path x ->
  exists st',
    file_step str_lower fnmatchcase directory_path ignore_patterns
      ignore_hidden include_file_contents prefix indent x st = Ok st'.
Proof.
  intros Hx. unfold file_step. rewrite should_ignore_total. simpl.
  destruct (ignored x); [eauto|].
  destruct (language_of x); [|eauto].
  destruct (relative_to_under_root x Hx) as (rel & ->). simpl.
  destruct include_file_contents; eauto.
Qed.

Lemma stats_ok_children (d : item) (l : list entry) :
  forallb stats_ok l = true ->
  forallb can_stat (map (child_item d) l) = true.
Proof.
  rewrite !forallb_forall. intros H x Hx. apply in_map_iff in Hx.
  destruct Hx as (e & <- & He). specialize (H e He).
  unfold can_stat. simpl. now destruct e.
Qed.

Lemma build_tree_total (fuel : nat) :
  forall d prefix indent st,
    height (item_node d) < fuel ->
    lists_ok (item_node d) = true ->
    stats_ok (item_node d) = true ->
    is_dir d = true ->
    under_root directory_path d ->
    exists st', build_tree fuel d prefix indent st = Ok st'.
Proof.
  induction fuel as [|fuel IH];
    intros d prefix indent st Hh Hok Hstat Hdir Hu; [lia|].
  rewrite build_tree_step. unfold iterdir. unfold is_dir in Hdir.
  destruct (item_node d) as [| n [l| |] | |] eqn:Enode; try discriminate;
    [|eauto].
  simpl in Hh, Hok, Hstat. cbv iota beta.
  rewrite (stats_ok_children d l Hstat).
  assert (Hchild : forall x, In x (map (child_item d) l) ->
            exists e, In e l /\ x = child_item d e).
  { intros x Hx. apply in_map_iff in Hx. destruct Hx as (e & <- & He).
    eauto. }
  destruct (for_each_total (fun _ : state => True)
              (sorted_by (key_name_lower str_lower)
                 (filter is_dir (map (child_item d) l)))
              (dir_step fnmatchcase ignore_patterns ignore_hidden
                 (build_tree fuel) prefix indent)) with (s := st)
    as (st1 & -> & _); [|exact I|].
  - intros x s Hx _. apply sorted_by_In, filter_In in Hx.
    destruct Hx as [Hx Hxd]. destruct (Hchild x Hx) as (e & He & ->).
    unfold dir_step. rewrite should_ignore_total. simpl.
    destruct (ignored (child_item d e)); [eauto|].
    destruct (IH (child_item d e) (prefix ++ indent) indent
                (append (FolderLine prefix indent (child_item d e)) s))
      as (s' & Hs'); eauto.
    + simpl. pose proof (height_child e l He). lia.
    + simpl. rewrite forallb_forall in Hok. now apply Hok.
    + simpl. rewrite forallb_forall in Hstat. now apply Hstat.
    + now apply under_root_child.
  - simpl.
    destruct (for_each_total (fun _ : state => True)
                (sorted_by (key_name_lower str_lower)
                   (filter is_file (map (child_item d) l)))
                (file_step str_lower fnmatchcase directory_path
                   ignore_patterns ignore_hidden include_file_contents
                   prefix indent)) with (s := st1)
      as (st2 & -> & _); [|exact I|eauto].
    intros x s Hx _. apply sorted_by_In, filter_In in Hx.
    destruct Hx as [Hx _]. destruct (Hchild x Hx) as (e & He & ->).
    destruct (file_step_total prefix indent (child_item d e) s) as (s' & ->);
      [now apply under_root_child | eauto].
Qed.

(** *** The lines of the walk *)

Lemma file_step_lines (prefix indent : str) (x : item) (st st' : state) :
  file_step str_lower fnmatchcase directory_path ignore_patterns
    ignore_hidden include_file_contents prefix indent x st = Ok st' ->
  result st'
  = result st
    ++ (if negb (ignored x) && resolvable str_lower x
        then [FileLine prefix indent x
                (Anchor.create_anchor_id str_lower
                   (rel_path_str directory_path x))]
        else []).
Proof.
  unfold file_step, resolvable, rel_path_str.
  rewrite should_ignore_total. simpl.
  destruct (ignored x); simpl;
    [intros [= <-]; now rewrite app_nil_r|].
  destruct (language_of x); [|intros [= <-]; now rewrite app_nil_r].
  destruct (relative_to (item_path x) (item_path directory_path));
    simpl; try discriminate.
  destruct include_file_contents; now intros [= <-].
Qed.

Lemma build_tree_lines (fuel : nat) :
  forall d prefix indent st st',
    build_tree fuel d prefix indent st = Ok st' ->
    result st'
    = result st
      ++ tree_lines str_lower fnmatchcase directory_path ignore_patterns
           ignore_hidden fuel d prefix indent.
Proof.
  induction fuel as [|fuel IH]; intros d prefix indent st st';
    [discriminate|].
  rewrite build_tree_step. cbn [tree_lines].
  destruct (iterdir d) as [items| |]; try discriminate.
  - destruct (forallb can_stat items); [|discriminate].
    destruct (for_each _ _ st) as [st1|] eqn:Edirs; simpl;
      try discriminate.
    intros Hfiles.
    apply (for_each_appends result
             (fun x => if negb (ignored x) && resolvable str_lower x
                       then [FileLine prefix indent x
                               (Anchor.create_anchor_id str_lower
                                  (rel_path_str directory_path x))]
                       else [])) in Hfiles;
      [|intros x s s' _; apply file_step_lines].
    apply (for_each_appends result
             (fun x => if negb (ignored x)
                       then FolderLine prefix indent x
                            :: tree_lines str_lower fnmatchcase
                                 directory_path ignore_patterns
                                 ignore_hidden fuel x (prefix ++ indent)
                                 indent
                       else [])) in Edirs.
    + rewrite Hfiles, Edirs, <- app_assoc.
      rewrite !flat_map_filter, flat_map_singleton. reflexivity.
    + intros x s s' _. unfold dir_step. rewrite should_ignore_total.
      simpl. destruct (ignored x); simpl.
      * intros [= <-]. now rewrite app_nil_r.
      * intros Hrec. apply IH in Hrec. rewrite Hrec. simpl.
        now rewrite <- app_assoc.
  - now intros [= <-].
Qed.

(** *** What the walk can raise *)

Lemma for_each_raise {A S} (l : list A) (body : A -> S -> res S) :
  forall s e,
    for_each l body s = Raise e ->
    exists x s0, In x l /\ body x s0 = Raise e.
Proof.
  induction l as [|x l IH]; simpl; intros s e; [discriminate|].
  destruct (body x s) as [s1| e1] eqn:E; simpl; try discriminate.
  - intros H. destruct (IH _ _ H) as (y & s0 & Hy & Hb). eauto 6.
  - intros [= <-]. eauto 6.
Qed.

Lemma file_step_raise (prefix indent : str) (x : item) (st : state)
    (e : exn) :
  file_step str_lower fnmatchcase directory_path ignore_patterns
    ignore_hidden include_file_contents prefix indent x st = Raise e ->
  e = ValueError.
Proof.
  unfold file_step. rewrite should_ignore_total. simpl.
  destruct (ignored x); [discriminate|].
  destruct (language_of x); [|discriminate].
  unfold relative_to.
  destruct (str_eqb _ _); [|simpl; congruence].
  destruct (strip_prefix _ _); simpl; [|congruence].
  destruct include_file_contents; discriminate.
Qed.

Lemma build_tree_raise (fuel : nat) :
  forall d prefix indent st e,
    build_tree fuel d prefix indent st = Raise e -> e <> AssertionError.
Proof.
  induction fuel as [|fuel IH]; intros d prefix indent st e;
    [intros [= <-]; discriminate|].
  rewrite build_tree_step.
  destruct (iterdir d) as [items| |]; try discriminate;
    [|intros [= <-]; discriminate].
  destruct (forallb can_stat items); [|intros [= <-]; discriminate].
  destruct (for_each _ _ st) as [st1| e1] eqn:Edirs; simpl;
    try discriminate.
  - intros H. apply for_each_raise in H.
    destruct H as (x & s0 & _ & H). apply file_step_raise in H.
    subst. discriminate.
  - intros [= <-]. apply for_each_raise in Edirs.
    destruct Edirs as (x & s0 & _ & H). unfold dir_step in H.
    rewrite should_ignore_total in H. simpl in H.
    destruct (ignored x); [discriminate|]. now apply IH in H.
Qed.

(** The recursion limit is not reached while it exceeds the depth of
    the tree. *)
Lemma build_tree_within_depth (fuel : nat) :
  forall d prefix indent st,
    height (item_node d) < fuel ->
    build_tree fuel d prefix indent st <> Raise RecursionError.
Proof.
  induction fuel as [|fuel IH]; intros d prefix indent st Hh; [lia|].
  rewrite build_tree_step.
  destruct (iterdir d) as [items| |] eqn:Els; try discriminate.
  destruct (forallb can_stat items); [|discriminate].
  destruct (for_each _ _ st) as [st1| e1] eqn:Edirs; cbn [bind].
  - intros H. apply for_each_raise in H.
    destruct H as (x & s0 & _ & H). apply file_step_raise in H.
    discriminate.
  - intros [= ->]. apply for_each_raise in Edirs.
    destruct Edirs as (x & s0 & Hx & H).
    apply sorted_by_In, filter_In in Hx. destruct Hx as [Hx _].
    destruct (iterdir_children d items x Els Hx)
      as (e & l & n & Hnode & He & ->).
    unfold dir_step in H. rewrite should_ignore_total in H.
    cbn [bind] in H. destruct (ignored (child_item d e)); [discriminate|].
    revert H. apply IH. rewrite Hnode in Hh. simpl in Hh |- *.
    pose proof (height_child e l He). lia.
Qed.

(** *** The content emitter *)

Local Abbreviation supported_record := (Tool.supported_record str_lower).

Lemma emit_file_total (kv : str * content_record) (result : list line) :
  supported_record kv ->
  exists lines, emit_file str_lower kv result = Ok lines.
Proof.
  unfold supported_record, emit_file.
  destruct (language_of (rec_file_path (snd kv))); [|congruence].
  intros _. destruct (read_text _); eauto.
Qed.

Lemma emit_all_total (records : list (str * content_record))
    (result : list line) :
  Forall supported_record records ->
  exists lines, for_each records (emit_file str_lower) result = Ok lines.
Proof.
  intros Hall.
  destruct (for_each_total (fun _ : list line => True) records
              (emit_file str_lower)) with (s := result)
    as (lines & H & _); [|exact I|eauto].
  intros kv r Hin _. rewrite Forall_forall in Hall.
  destruct (emit_file_total kv r (Hall kv Hin)) as (lines & ->). eauto.
Qed.

Lemma build_tree_records_supported (fuel : nat) (d : item)
    (prefix indent : str) (st st' : state) :
  Forall supported_record (file_contents st) ->
  build_tree fuel d prefix indent st = Ok st' ->
  Forall supported_record (file_contents st').
Proof.
  intros Hst Hrun.
  apply (build_tree_ok (fun _ => True) (fun _ => True) supported_record)
    with (fuel := fuel) (d := d) (prefix := prefix) (indent := indent)
         (st := st) (st' := st'); auto.
  - intros ? ? x ? ? language rel _ _ _ _ _ Hlang _. split; [exact I|].
    unfold supported_record. simpl. congruence.
  - split; [|exact Hst]. apply Forall_forall. auto.
Qed.

(** The content section adds no line that stands for an entry. *)
Lemma emit_file_entry_lines (kv : str * content_record)
    (result lines : list line) :
  emit_file str_lower kv result = Ok lines ->
  forall l, In l lines -> entry_of_line l <> None -> In l result.
Proof.
  unfold emit_file.
  destruct (language_of (rec_file_path (snd kv))); [|discriminate].
  destruct (read_text _); intros [= <-] l Hin Hl;
    rewrite ?in_app_iff in Hin; simpl in Hin;
    repeat (destruct Hin as [Hin|Hin]; try tauto);
    subst l; simpl in Hl; congruence.
Qed.

Lemma emit_contents_entry_lines (st : state) (lines : list line) :
  emit_contents str_lower include_file_contents st = Ok lines ->
  forall l, In l lines -> entry_of_line l <> None -> In l (result st).
Proof.
  unfold emit_contents.
  destruct (include_file_contents && _); [|now intros [= <-]].
  intros Hrun.
  apply (for_each_inv
           (fun r => forall l, In l r -> entry_of_line l <> None ->
                               In l (result st))
           (file_contents st) (emit_file str_lower))
    with (s := result st ++ [Separator; ContentsHeading]) (s' := lines);
    [| |exact Hrun].
  - intros kv r r' _ Hr Hstep l Hin Hl.
    apply Hr; [|exact Hl]. eapply emit_file_entry_lines; eauto.
  - intros l Hin Hl. apply in_app_iff in Hin.
    destruct Hin as [Hin|[<-|[<-|[]]]]; simpl in Hl; congruence.
Qed.

Lemma initial_state_ok (PL : line -> Prop)
    (PR : str * content_record -> Prop) :
  (forall l, entry_of_line l = None -> PL l) ->
  state_ok PL PR (initial_state directory_path).
Proof.
  intros H. split; simpl; [|constructor].
  repeat constructor; now apply H.
Qed.

Lemma emit_contents_total (st : state) :
  build_from_root str_lower fnmatchcase directory_path ignore_patterns
    ignore_hidden include_file_contents max_depth = Ok st ->
  Forall supported_record (file_contents st)
  /\ exists lines,
       emit_contents str_lower include_file_contents st = Ok lines.
Proof.
  intros Hrun.
  assert (Hsup : Forall supported_record (file_contents st)).
  { eapply build_tree_records_supported; [|exact Hrun]. constructor. }
  split; [exact Hsup|]. unfold emit_contents.
  destruct (include_file_contents && _); [|eauto].
  now apply emit_all_total.
Qed.

(** *** The claims about the walk *)

(** C2. A file whose lowercased extension is not in the language table
    is on no file line of the document and in no record handed to the
    content section, whatever [ignore_patterns] and [ignore_hidden]
    are. *)
Theorem unsupported_files_absent (st : state) (lines : list line)
    (x : item) :
  build_from_root str_lower fnmatchcase directory_path ignore_patterns
    ignore_hidden include_file_contents max_depth = Ok st ->
  emit_contents str_lower include_file_contents st = Ok lines ->
  language_of x = None ->
  (forall prefix indent anchor_id,
     ~ In (FileLine prefix indent x anchor_id) lines)
  /\ (forall k r, In (k, r) (file_contents st) -> rec_file_path r <> x).
Proof.
  intros Hrun Hemit Hnone.
  pose (PL := fun l => match l with
                       | FileLine _ _ f _ => language_of f <> None
                       | _ => True
                       end).
  assert (Hok : state_ok PL supported_record st).
  { unfold build_from_root in Hrun.
    refine (build_tree_ok (fun _ => True) PL supported_record
              _ _ _ _ _ _ _ _ _ _ _ Hrun).
    - exact (fun _ _ => I).
    - intros; split; exact I.
    - intros ? ? f ? ? language rel _ _ _ _ _ Hlang _.
      unfold supported_record. simpl. split; congruence.
    - exact I.
    - apply initial_state_ok. now intros [].  }
  destruct Hok as [HL HR]. rewrite Forall_forall in HL, HR. split.
  - intros prefix indent anchor_id Hin.
    apply (emit_contents_entry_lines st lines Hemit) in Hin;
      [|discriminate].
    now apply (HL _ Hin).
  - intros k r Hin Heq. apply (HR _ Hin).
    unfold Tool.supported_record. simpl. now rewrite Heq.
Qed.

(** C3. With [ignore_hidden] set, an entry whose name begins with a dot,
    and every entry beneath it, is on no folder or file line of the
    document and in no record handed to the content section. *)
Theorem hidden_subtrees_absent (st : state) (lines : list line)
    (x : item) :
  ignore_hidden = true ->
  build_from_root str_lower fnmatchcase directory_path ignore_patterns
    ignore_hidden include_file_contents max_depth = Ok st ->
  emit_contents str_lower include_file_contents st = Ok lines ->
  in_hidden_subtree directory_path x ->
  (forall l, In l lines -> entry_of_line l <> Some x)
  /\ (forall k r, In (k, r) (file_contents st) -> rec_file_path r <> x).
Proof.
  intros Hhid Hrun Hemit Hx.
  pose (visible := fun y : item => ~ in_hidden_subtree directory_path y).
  pose (PL := fun l => match entry_of_line l with
                       | Some y => visible y
                       | None => True
                       end).
  pose (PR := fun kv : str * content_record =>
                visible (rec_file_path (snd kv))).
  assert (Hchild : forall d items y,
            under_root directory_path d /\ visible d ->
            iterdir d = Listed items -> In y items -> ignored y = false ->
            under_root directory_path y /\ visible y).
  { intros d items y [Hu Hv] Hls Hy Hign.
    destruct (iterdir_children d items y Hls Hy) as (e & l & n & _ & _ & ->).
    split; [now apply under_root_child|].
    unfold visible, in_hidden_subtree. rewrite below_root_child by exact Hu.
    rewrite Exists_app. intros [H|H]; [now apply Hv|].
    apply Exists_cons in H. destruct H as [H|H]; [|now inversion H].
    unfold Tool.ignored, _should_ignore in Hign.
    rewrite Hhid, item_name_child, H in Hign. discriminate. }
  assert (Hok : state_ok PL PR st).
  { unfold build_from_root in Hrun.
    refine (build_tree_ok
              (fun d => under_root directory_path d /\ visible d) PL PR
              _ _ _ _ _ _ _ _ _ _ _ Hrun).
    - exact (fun _ _ => I).
    - intros d items y ? ? Hd Hls Hy _ Hign.
      destruct (Hchild d items y Hd Hls Hy Hign) as [Hu Hv].
      split; [exact Hv | now split].
    - intros d items y ? ? language rel Hd Hls Hy _ Hign _ _.
      destruct (Hchild d items y Hd Hls Hy Hign) as [Hu Hv].
      split; exact Hv.
    - split; [apply under_root_root|].
      unfold visible, in_hidden_subtree. rewrite below_root_root.
      intros H. inversion H.
    - apply initial_state_ok. intros l Hl. unfold PL. now rewrite Hl. }
  destruct Hok as [HL HR]. rewrite Forall_forall in HL, HR. split.
  - intros l Hin Hl.
    apply (emit_contents_entry_lines st lines Hemit) in Hin;
      [|congruence].
    specialize (HL _ Hin). unfold PL in HL. rewrite Hl in HL.
    now apply HL.
  - intros k r Hin Heq. apply (HR _ Hin). unfold PR. simpl.
    now rewrite Heq.
Qed.

(** C4. The lines a directory contributes are those of its kept
    subdirectories, each folder line directly followed by the lines of
    its own walk, and after them the file lines of its kept, resolvable
    files; subdirectories and files are each taken in the order of their
    lowercased names.  The walk of a directory returns when the
    recursion limit exceeds its depth, every listing beneath it succeeds
    or is refused, and the status of every entry can be read. *)
Theorem tree_lines_order (fuel : nat) (d : item) (prefix indent : str)
    (st : state) :
  (height (item_node d) < S fuel ->
   lists_ok (item_node d) = true ->
   stats_ok (item_node d) = true ->
   is_dir d = true ->
   under_root directory_path d ->
   exists st', build_tree (S fuel) d prefix indent st = Ok st')
  /\ (forall st',
        build_tree (S fuel) d prefix indent st = Ok st' ->
        result st'
        = result st
          ++ tree_lines str_lower fnmatchcase directory_path
               ignore_patterns ignore_hidden (S fuel) d prefix indent)
  /\ (forall items,
        iterdir d = Listed items ->
        exists dirs files,
          Permutation dirs (filter is_dir items)
          /\ StronglySorted
               (fun a b =>
                  str_le (str_lower (item_name a))
                         (str_lower (item_name b))) dirs
          /\ Permutation files (filter is_file items)
          /\ StronglySorted
               (fun a b =>
                  str_le (str_lower (item_name a))
                         (str_lower (item_name b))) files
          /\ tree_lines str_lower fnmatchcase directory_path
               ignore_patterns ignore_hidden (S fuel) d prefix indent
             = flat_map
                 (fun x =>
                    FolderLine prefix indent x
                    :: tree_lines str_lower fnmatchcase directory_path
                         ignore_patterns ignore_hidden fuel x
                         (prefix ++ indent) indent)
                 (filter (fun x => negb (ignored x)) dirs)
               ++ map (fun f =>
                         FileLine prefix indent f
                           (Anchor.create_anchor_id str_lower
                              (rel_path_str directory_path f)))
                      (filter (fun f => negb (ignored f)
                                        && resolvable str_lower f)
                              files)).
Proof.
  split; [|split].
  - intros. now apply build_tree_total.
  - apply build_tree_lines.
  - intros items Hls.
    exists (sorted_by (key_name_lower str_lower) (filter is_dir items)),
           (sorted_by (key_name_lower str_lower) (filter is_file items)).
    repeat split; try apply sorted_by_perm;
      try (eapply StronglySorted_weaken;
           [|apply (sorted_by_sorted item (key_name_lower str_lower))];
           intros a b; apply str_leb_le).
    simpl. now rewrite Hls.
Qed.

(** *** The claims about failures and the returned value *)

Variable output_file : option str.
Variable writable : str -> bool.

Local Abbreviation generate :=
  (generate_repo_structure_to_markdown str_lower fnmatchcase directory_path
     output_file ignore_patterns ignore_hidden include_file_contents
     writable max_depth).
Local Abbreviation walk_from_root :=
  (build_from_root str_lower fnmatchcase directory_path ignore_patterns
     ignore_hidden include_file_contents max_depth).
Local Abbreviation whole_document :=
  (document str_lower fnmatchcase directory_path ignore_patterns
     ignore_hidden include_file_contents max_depth).

Lemma document_not_assertion : whole_document <> Raise AssertionError.
Proof.
  unfold document.
  destruct walk_from_root as [st| e] eqn:Hrun; simpl; try discriminate.
  - destruct (emit_contents_total st Hrun) as (_ & lines & ->).
    discriminate.
  - intros [= ->]. now apply build_tree_raise in Hrun.
Qed.

(** C6. Every file the walk records resolves to a language again in the
    content emitter, so the emitter runs to its end and neither the
    document nor the whole call ever fails on the assertion. *)
Theorem recorded_files_resolve :
  (forall st,
     walk_from_root = Ok st ->
     (forall k r,
        In (k, r) (file_contents st) ->
        exists language, language_of (rec_file_path r) = Some language)
     /\ exists lines,
          emit_contents str_lower include_file_contents st = Ok lines)
  /\ whole_document <> Raise AssertionError
  /\ generate <> Raise AssertionError.
Proof.
  split; [|split].
  - intros st Hrun.
    destruct (emit_contents_total st Hrun) as (Hsup & Hlines).
    split; [|exact Hlines].
    intros k r Hin. rewrite Forall_forall in Hsup.
    specialize (Hsup _ Hin). unfold Tool.supported_record in Hsup.
    simpl in Hsup. destruct (language_of (rec_file_path r)); [eauto|].
    congruence.
  - apply document_not_assertion.
  - unfold generate_repo_structure_to_markdown.
    pose proof document_not_assertion as Hdoc.
    destruct whole_document as [lines| e]; simpl; try discriminate.
    + destruct (output_requested output_file) as [f|]; [|discriminate].
      destruct (writable f); discriminate.
    + congruence.
Qed.

Lemma walk_from_root_total :
  is_dir directory_path = true ->
  lists_ok (item_node directory_path) = true ->
  stats_ok (item_node directory_path) = true ->
  height (item_node directory_path) < max_depth ->
  exists st, walk_from_root = Ok st.
Proof.
  intros Hdir Hok Hstat Hdepth. unfold build_from_root.
  apply build_tree_total; auto using under_root_root.
Qed.

(** C7. The walk of a directory that refuses listing returns, having
    added exactly the permission-denied line and nothing else; in the
    loop over its siblings the folder line and that marker are written
    and the loop goes on with the remaining siblings; and when every
    listing either succeeds or is refused (the root being a directory
    whose depth is within the recursion limit and whose entries can all
    be examined) the walk and the content section complete and the whole
    document is produced. *)
Theorem permission_denied_is_local :
  (forall fuel d prefix indent st,
     iterdir d = PermissionDenied ->
     exists st',
       build_tree (S fuel) d prefix indent st = Ok st'
       /\ result st' = result st ++ [PermissionLine prefix indent]
       /\ file_contents st' = file_contents st)
  /\ (forall fuel d rest prefix indent st,
        iterdir d = PermissionDenied ->
        ignored d = false ->
        exists st',
          result st'
          = result st
            ++ [FolderLine prefix indent d;
                PermissionLine (prefix ++ indent) indent]
          /\ file_contents st' = file_contents st
          /\ for_each (d :: rest)
               (dir_step fnmatchcase ignore_patterns ignore_hidden
                  (build_tree (S fuel)) prefix indent) st
             = for_each rest
                 (dir_step fnmatchcase ignore_patterns ignore_hidden
                    (build_tree (S fuel)) prefix indent) st')
  /\ (is_dir directory_path = true ->
      lists_ok (item_node directory_path) = true ->
      stats_ok (item_node directory_path) = true ->
      height (item_node directory_path) < max_depth ->
      exists st lines,
        walk_from_root = Ok st /\ whole_document = Ok lines).
Proof.
  split; [|split].
  - intros fuel d prefix indent st Hls. rewrite build_tree_step, Hls.
    eexists. split; [reflexivity|]. split; reflexivity.
  - intros fuel d rest prefix indent st Hls Hign.
    cbn [for_each]. unfold dir_step at 1.
    rewrite should_ignore_total, Hign. cbn [bind].
    rewrite build_tree_step, Hls. cbn [bind].
    eexists. split; [|split; [|reflexivity]].
    + simpl. now rewrite <- app_assoc.
    + reflexivity.
  - intros Hdir Hok Hstat Hdepth.
    destruct (walk_from_root_total Hdir Hok Hstat Hdepth) as (st & Hrun).
    destruct (emit_contents_total st Hrun) as (_ & lines & Hlines).
    exists st, lines. split; [exact Hrun|].
    unfold document. rewrite Hrun. exact Hlines.
Qed.

(** C10. Whenever the document is produced (and the output file, if one
    is given, can be written) the call returns the joined markdown
    string, the same string it returns without an output file; giving
    [output_file] only adds the write of that string. *)
Theorem returns_markdown_always (lines : list line) :
  whole_document = Ok lines ->
  (forall f, output_requested output_file = Some f -> writable f = true) ->
  exists out out0,
    generate = Ok out
    /\ generate_repo_structure_to_markdown str_lower fnmatchcase
         directory_path None ignore_patterns ignore_hidden
         include_file_contents writable max_depth = Ok out0
    /\ returned out = join [newline] (map render lines)
    /\ returned out = returned out0
    /\ written out0 = None
    /\ written out
       = option_map (fun f => (f, returned out))
           (output_requested output_file).
Proof.
  intros Hdoc Hw. unfold generate_repo_structure_to_markdown.
  rewrite Hdoc. cbn [bind output_requested].
  destruct (output_requested output_file) as [f|] eqn:Ereq.
  - rewrite (Hw f eq_refl).
    eexists. eexists. repeat split; reflexivity.
  - eexists. eexists. repeat split; reflexivity.
Qed.

End Walk.

(** *** The claims on the sample repository *)

Section OnSample.
Import Sample.

Local Abbreviation sample_walk :=
  (build_from_root ascii_lower simple_fnmatchcase sample_root None true
     true 1000).
Local Abbreviation sample_emit := (emit_contents ascii_lower true).
Local Abbreviation sample_document :=
  (document ascii_lower simple_fnmatchcase sample_root None true true 1000).

Lemma unsupported_files_absent_witness :
  exists st lines,
    sample_walk = Ok st
    /\ sample_emit st = Ok lines
    /\ Lang.determine_file_language ascii_lower (item_path sample_notes)
       = None
    /\ (forall prefix indent anchor_id,
          ~ In (FileLine prefix indent sample_notes anchor_id) lines)
    /\ (forall k r,
          In (k, r) (file_contents st) -> rec_file_path r <> sample_notes).
Proof.
  assert (H : exists st lines, sample_walk = Ok st /\ sample_emit st = Ok lines)
    by (vm_compute; eexists; eexists; split; reflexivity).
  destruct H as (st & lines & Hrun & Hemit).
  exists st, lines. split; [exact Hrun|]. split; [exact Hemit|].
  split; [reflexivity|].
  exact (unsupported_files_absent ascii_lower simple_fnmatchcase sample_root
           None true true 1000 st lines sample_notes Hrun Hemit eq_refl).
Defined.

Lemma hidden_subtrees_absent_witness :
  exists st lines,
    sample_walk = Ok st
    /\ sample_emit st = Ok lines
    /\ in_hidden_subtree sample_root sample_hidden_x
    /\ (forall l, In l lines -> entry_of_line l <> Some sample_hidden_x)
    /\ (forall k r,
          In (k, r) (file_contents st) ->
          rec_file_path r <> sample_hidden_x).
Proof.
  assert (H : exists st lines, sample_walk = Ok st /\ sample_emit st = Ok lines)
    by (vm_compute; eexists; eexists; split; reflexivity).
  destruct H as (st & lines & Hrun & Hemit).
  assert (Hx : in_hidden_subtree sample_root sample_hidden_x).
  { unfold in_hidden_subtree. apply Exists_cons_tl, Exists_cons_hd.
    reflexivity. }
  exists st, lines. split; [exact Hrun|]. split; [exact Hemit|].
  split; [exact Hx|].
  exact (hidden_subtrees_absent ascii_lower simple_fnmatchcase sample_root
           None true true 1000 st lines sample_hidden_x eq_refl Hrun Hemit
           Hx).
Defined.

Lemma tree_lines_order_witness :
  exists st',
    _build_tree ascii_lower simple_fnmatchcase MoreSamples.case_root None
      true true 3 MoreSamples.case_root [] (lit "  ")
      (initial_state MoreSamples.case_root) = Ok st'
    /\ result st'
       = result (initial_state MoreSamples.case_root)
         ++ tree_lines ascii_lower simple_fnmatchcase
              MoreSamples.case_root None true 3 MoreSamples.case_root []
              (lit "  ")
    /\ flat_map (fun l => match entry_of_line l with
                          | Some x => [item_name x]
                          | None => []
                          end) (result st')
       = [lit "a"; lit "b"; lit "C"; lit "a.py"; lit "B.py"; lit "c.py"].
Proof.
  destruct (tree_lines_order ascii_lower simple_fnmatchcase
              MoreSamples.case_root None true true 2
              MoreSamples.case_root [] (lit "  ")
              (initial_state MoreSamples.case_root)) as (Hret & Hlines & _).
  destruct Hret as (st' & Hst').
  - vm_compute. lia.
  - reflexivity.
  - reflexivity.
  - reflexivity.
  - split; [reflexivity|]. exists []. reflexivity.
  - exists st'. split; [exact Hst'|].
    split; [exact (Hlines st' Hst')|].
    rewrite (Hlines st' Hst'). reflexivity.
Defined.

Lemma recorded_files_resolve_witness :
  exists st,
    sample_walk = Ok st
    /\ (forall k r,
          In (k, r) (file_contents st) ->
          exists language,
            Lang.determine_file_language ascii_lower
              (item_path (rec_file_path r)) = Some language)
    /\ exists lines, sample_emit st = Ok lines.
Proof.
  assert (H : exists st, sample_walk = Ok st)
    by (vm_compute; eexists; reflexivity).
  destruct H as (st & Hrun). exists st. split; [exact Hrun|].
  exact (proj1 (recorded_files_resolve ascii_lower simple_fnmatchcase
                  sample_root None true true 1000 None (fun _ => true))
           st Hrun).
Defined.

Lemma permission_denied_is_local_witness :
  iterdir sample_locked = PermissionDenied
  /\ (exists st',
        _build_tree ascii_lower simple_fnmatchcase sample_root None true
          true 1 sample_locked (lit "  ") (lit "  ")
          (initial_state sample_root) = Ok st'
        /\ result st'
           = result (initial_state sample_root)
             ++ [PermissionLine (lit "  ") (lit "  ")]
        /\ file_contents st' = [])
  /\ (exists st',
        result st'
        = result (initial_state sample_root)
          ++ [FolderLine [] (lit "  ") sample_locked;
              PermissionLine (lit "  ") (lit "  ")]
        /\ for_each [sample_locked]
             (dir_step simple_fnmatchcase None true
                (_build_tree ascii_lower simple_fnmatchcase sample_root
                   None true true 1) [] (lit "  "))
             (initial_state sample_root) = Ok st')
  /\ exists st lines,
       sample_walk = Ok st /\ sample_document = Ok lines.
Proof.
  destruct (permission_denied_is_local ascii_lower simple_fnmatchcase
              sample_root None true true 1000) as (Hlocal & Hloop & Hrun).
  split; [reflexivity|]. split; [|split].
  - exact (Hlocal 0 sample_locked (lit "  ") (lit "  ")
             (initial_state sample_root) eq_refl).
  - destruct (Hloop 0 sample_locked [] [] (lit "  ")
                (initial_state sample_root) eq_refl eq_refl)
      as (st' & Hres & _ & Hnext).
    exists st'. split; [exact Hres | exact Hnext].
  - apply Hrun; try reflexivity.
    change (height (item_node sample_root)) with 3. lia.
Defined.

Lemma returns_markdown_always_witness :
  exists lines out out0,
    sample_document = Ok lines
    /\ generate_repo_structure_to_markdown ascii_lower simple_fnmatchcase
         sample_root (Some (lit "out.md")) None true true (fun _ => true) 1000
       = Ok out
    /\ generate_repo_structure_to_markdown ascii_lower simple_fnmatchcase
         sample_root None None true true (fun _ => true) 1000
       = Ok out0
    /\ returned out = join [newline] (map render lines)
    /\ returned out = returned out0
    /\ written out = Some (lit "out.md", returned out).
Proof.
  assert (H : exists lines, sample_document = Ok lines)
    by (vm_compute; eexists; reflexivity).
  destruct H as (lines & Hdoc).
  destruct (returns_markdown_always ascii_lower simple_fnmatchcase
              sample_root None true true 1000 (Some (lit "out.md"))
              (fun _ => true) lines Hdoc (fun _ _ => eq_refl))
    as (out & out0 & H1 & H2 & H3 & H4 & _ & H6).
  exists lines, out, out0. repeat split; assumption.
Defined.

End OnSample.

End WalkFacts.

(** ** Shape of anchors *)

Module AnchorShape.
Import Anchor.

Lemma dropwhile_suffix (p : char -> bool) (s : str) :
  exists pre, s = pre ++ dropwhile p s.
Proof.
  induction s as [|x s (pre & IH)]; simpl.
  - now exists [].
  - destruct (p x); [|now exists []].
    exists (x :: pre). simpl. now rewrite <- IH.
Qed.

Lemma dropwhile_head (p : char -> bool) (s : str) (c : char) (t : str) :
  dropwhile p s = c :: t -> p c = false.
Proof.
  induction s as [|x s IH]; simpl; [discriminate|].
  destruct (p x) eqn:E; [exact IH|]. intros [= <- _]. exact E.
Qed.

Lemma rstrip_by_prefix (p : char -> bool) (s : str) :
  exists post, s = rstrip_by p s ++ post.
Proof.
  unfold rstrip_by. destruct (dropwhile_suffix p (rev s)) as (pre & H).
  exists (rev pre). rewrite <- rev_app_distr, <- H. now rewrite rev_involutive.
Qed.

Lemma rstrip_by_last (p : char -> bool) (s t : str) (c : char) :
  rstrip_by p s = t ++ [c] -> p c = false.
Proof.
  unfold rstrip_by. intros H.
  apply (f_equal (@rev char)) in H.
  rewrite rev_involutive, rev_app_distr in H. simpl in H.
  now apply dropwhile_head in H.
Qed.


Lemma no_adjacent_tail (c : char) (s : str) :
  Shapes.no_adjacent_dashes (c :: s) = true ->
  Shapes.no_adjacent_dashes s = true.
Proof.
  simpl. destruct s as [|d s]; [reflexivity|].
  intros H. now apply andb_true_iff in H.
Qed.

Lemma no_adjacent_no_pair (s : str) :
  Shapes.no_adjacent_dashes s = true ->
  forall a b, s <> a ++ dash :: dash :: b.
Proof.
  intros H a. revert s H. induction a as [|x a IH]; intros s H b E.
  - subst s. simpl in H. discriminate.
  - subst s. apply no_adjacent_tail in H. exact (IH _ H b eq_refl).
Qed.

Lemma sub_dash_runs_no_adjacent (s : str) :
  forall in_run,
    Shapes.no_adjacent_dashes (sub_dash_runs_from in_run s) = true
    /\ (in_run = true ->
        forall t, sub_dash_runs_from in_run s <> dash :: t).
Proof.
  induction s as [|c s IH]; intros in_run.
  - split; [reflexivity | discriminate].
  - cbn [sub_dash_runs_from].
    destruct (N.eqb_spec c dash) as [->|Hne].
    + destruct in_run.
      * apply IH.
      * destruct (IH true) as [Hn Hh]. split; [|discriminate].
        specialize (Hh eq_refl).
        destruct (sub_dash_runs_from true s) as [|d t]; [reflexivity|].
        change (negb ((dash =? dash)%N && (d =? dash)%N)
                && Shapes.no_adjacent_dashes (d :: t) = true).
        rewrite Hn.
        destruct (N.eqb_spec d dash) as [->|_]; [|reflexivity].
        now destruct (Hh t).
    + destruct (IH false) as [Hn _]. split.
      * destruct (sub_dash_runs_from false s) as [|d t]; [reflexivity|].
        change (negb ((c =? dash)%N && (d =? dash)%N)
                && Shapes.no_adjacent_dashes (d :: t) = true).
        rewrite Hn. apply N.eqb_neq in Hne. now rewrite Hne.
      * intros _ t [= E]. congruence.
Qed.

Lemma sub_dash_runs_chars (P : char -> Prop) (s : str) :
  P dash -> Forall P s ->
  forall in_run, Forall P (sub_dash_runs_from in_run s).
Proof.
  intros Hd. induction 1 as [|c s Hc Hs IH]; intros in_run; simpl;
    [constructor|].
  destruct (c =? dash)%N; [destruct in_run|]; auto.
Qed.

Lemma Forall_app_l {A} (P : A -> Prop) (a b : list A) :
  Forall P (a ++ b) -> Forall P a.
Proof. intros H. now apply Forall_app in H. Qed.

Lemma Forall_app_r {A} (P : A -> Prop) (a b : list A) :
  Forall P (a ++ b) -> Forall P b.
Proof. intros H. now apply Forall_app in H. Qed.

(** X1. An anchor holds only lowercase ASCII letters, digits and dashes,
    no two dashes in a row, and no dash at either end. *)
Theorem anchor_is_clean_slug (str_lower : str -> str)
    (lower_no_upper : forall s c, In c (str_lower s) -> is_upper c = false)
    (filename : str) :
  let anchor := create_anchor_id str_lower filename in
  Forall (fun c => Shapes.is_slug_char c = true) anchor
  /\ (forall a b, anchor <> a ++ dash :: dash :: b)
  /\ (forall t, anchor <> dash :: t)
  /\ (forall t, anchor <> t ++ [dash]).
Proof.
  cbv zeta. unfold create_anchor_id, strip_dashes.
  set (mid := sub_dash_runs (sub_non_alnum (str_lower filename))).
  destruct (dropwhile_suffix (N.eqb dash) mid) as (pre & Hpre).
  destruct (rstrip_by_prefix (N.eqb dash) (lstrip_by (N.eqb dash) mid))
    as (post & Hpost).
  unfold lstrip_by in *.
  set (core := rstrip_by (N.eqb dash) (dropwhile (N.eqb dash) mid)) in *.
  assert (Hmid : mid = pre ++ core ++ post) by (rewrite Hpre at 1; now rewrite <- Hpost).
  assert (Hchars : Forall (fun c => Shapes.is_slug_char c = true) mid).
  { apply sub_dash_runs_chars; [reflexivity|].
    apply Forall_forall. intros c Hc. unfold sub_non_alnum in Hc.
    apply in_map_iff in Hc. destruct Hc as (x & <- & Hx).
    rewrite (lower_no_upper _ _ Hx), orb_false_r. unfold Shapes.is_slug_char.
    destruct (is_lower x || is_digit x) eqn:E; [now rewrite E|].
    reflexivity. }
  repeat split.
  - rewrite Hmid in Hchars. eapply Forall_app_l, Forall_app_r, Hchars.
  - intros a b E.
    destruct (sub_dash_runs_no_adjacent
                (sub_non_alnum (str_lower filename)) false) as [Hn _].
    apply (no_adjacent_no_pair _ Hn (pre ++ a) (b ++ post)).
    fold (sub_dash_runs (sub_non_alnum (str_lower filename))). fold mid.
    rewrite Hmid, E. now rewrite <- !app_assoc.
  - intros t E.
    destruct (dropwhile (N.eqb dash) mid) as [|c rest] eqn:Ed.
    + unfold core, rstrip_by in E. simpl in E. discriminate.
    + pose proof (dropwhile_head _ _ _ _ Ed) as Hc.
      rewrite E in Hpost. simpl in Hpost. injection Hpost as -> _.
      now rewrite N.eqb_refl in Hc.
  - intros t E. apply rstrip_by_last in E. now rewrite N.eqb_refl in E.
Qed.

Lemma anchor_is_clean_slug_witness :
  Forall (fun c => Shapes.is_slug_char c = true)
    (create_anchor_id ascii_lower (lit "Src/My__File.PY--"))
  /\ (forall t,
        create_anchor_id ascii_lower (lit "Src/My__File.PY--") <> dash :: t).
Proof.
  destruct (anchor_is_clean_slug ascii_lower AnchorFacts.ascii_lower_no_upper
              (lit "Src/My__File.PY--")) as (H1 & _ & H3 & _).
  split; [exact H1 | exact H3].
Defined.

End AnchorShape.

(** ** Extensions *)

Module SuffixFacts.

Lemma rfind_from_absent (c : char) (s : str) :
  ~ In c s -> forall i found, rfind_from i c s found = found.
Proof.
  induction s as [|x s IH]; simpl; intros Hn i found; [reflexivity|].
  destruct (N.eqb_spec x c) as [->|_]; [tauto|]. apply IH. tauto.
Qed.

Lemma rfind_from_app (c : char) (a b : str) :
  forall i found,
    rfind_from i c (a ++ b) found
    = rfind_from (i + length a) c b (rfind_from i c a found).
Proof.
  induction a as [|x a IH]; simpl; intros i found.
  - now rewrite Nat.add_0_r.
  - rewrite IH. now rewrite Nat.add_succ_comm.
Qed.

Lemma rfind_last (c : char) (stem ext : str) :
  ~ In c ext -> rfind c (stem ++ c :: ext) = Some (length stem).
Proof.
  intros Hn. unfold rfind. rewrite rfind_from_app. simpl.
  rewrite N.eqb_refl. now apply rfind_from_absent.
Qed.

Lemma suffix_of_split (p : path) (stem ext : str) :
  name p = stem ++ dot :: ext -> ~ In dot ext ->
  suffix p = match stem, ext with
             | _ :: _, _ :: _ => dot :: ext
             | _, _ => []
             end.
Proof.
  intros Hname Hn. unfold suffix. rewrite Hname, rfind_last by assumption.
  rewrite length_app. simpl length.
  destruct stem as [|s0 stem]; [reflexivity|].
  destruct ext as [|e0 ext].
  - match goal with
    | |- context [?a <? ?b - 1] => destruct (Nat.ltb_spec a (b - 1))
    end; [simpl in *; lia | now rewrite andb_false_r].
  - match goal with
    | |- context [?a <? ?b - 1] => destruct (Nat.ltb_spec a (b - 1))
    end; [|simpl in *; lia].
    simpl andb. cbv iota.
    rewrite skipn_app, skipn_all, Nat.sub_diag. reflexivity.
Qed.

(** X2. Only what follows the last dot of the name decides the
    language, and only when something stands before that dot and after
    it: a name without a dot, a name whose only dot is its first
    character and a name ending in a dot never resolve. *)
Theorem language_by_last_extension (str_lower : str -> str)
    (lower_empty : str_lower [] = []) (p : path) :
  (~ In dot (name p) -> determine_file_language str_lower p = None)
  /\ (forall stem ext,
        name p = stem ++ dot :: ext -> ~ In dot ext ->
        determine_file_language str_lower p
        = match stem, ext with
          | _ :: _, _ :: _ => dict_get extension_map (str_lower (dot :: ext))
          | _, _ => None
          end).
Proof.
  split.
  - intros Hn. unfold determine_file_language, suffix, rfind.
    rewrite rfind_from_absent by assumption. now rewrite lower_empty.
  - intros stem ext Hname Hn. unfold determine_file_language.
    rewrite (suffix_of_split p stem ext Hname Hn).
    destruct stem; [now rewrite lower_empty|].
    destruct ext; [now rewrite lower_empty | reflexivity].
Qed.

Lemma language_by_last_extension_witness :
  ascii_lower [] = []
  /\ name MoreSamples.archive_tar_gz = lit "archive.tar" ++ dot :: lit "gz"
  /\ determine_file_language ascii_lower MoreSamples.archive_tar_gz
     = dict_get extension_map (ascii_lower (dot :: lit "gz")).
Proof.
  split; [reflexivity|]. split; [reflexivity|].
  apply (proj2 (language_by_last_extension ascii_lower eq_refl
                  MoreSamples.archive_tar_gz)
           (lit "archive.tar") (lit "gz") eq_refl).
  cbv. intuition discriminate.
Defined.

End SuffixFacts.

(** ** More on the ignore filter *)

Module FilterFacts.
Import Tool IgnoreFacts.

Section Filter.
Variable fnmatchcase : str -> str -> bool.
Variable ignore_hidden : bool.

Local Abbreviation ignored_with :=
  (fun patterns => ignored fnmatchcase patterns ignore_hidden).

Lemma ignored_true_iff (patterns : option (list str)) (x : item) :
  ignored_with patterns x = true
  <-> excluded_by_path fnmatchcase patterns ignore_hidden x.
Proof.
  unfold ignored, _should_ignore, excluded_by_path.
  destruct (ignore_hidden && hidden_pattern_match (item_name x)) eqn:Eh.
  { split; [|reflexivity]. intros _. left. now apply andb_true_iff. }
  assert (Hnh : ~ (ignore_hidden = true
                   /\ hidden_pattern_match (item_name x) = true)).
  { rewrite <- andb_true_iff. congruence. }
  destruct patterns as [pats|].
  - destruct (ignore_loop_spec fnmatchcase x pats) as (b & -> & Hiff).
    rewrite Hiff. tauto.
  - split; [discriminate|]. intros [H|(? & [] & _)]. tauto.
Qed.

(** X3. The filter reads the patterns as a set: more patterns can only
    exclude more, and patterns listed in another order or more than once
    exclude the same entries. *)
Theorem ignored_depends_on_pattern_set (x : item) (pats pats' : list str) :
  ((forall q, In q pats -> In q pats') ->
   ignored_with (Some pats) x = true ->
   ignored_with (Some pats') x = true)
  /\ ((forall q, In q pats <-> In q pats') ->
      ignored_with (Some pats) x = ignored_with (Some pats') x).
Proof.
  assert (Hmono : forall l l', (forall q, In q l -> In q l') ->
            ignored_with (Some l) x = true ->
            ignored_with (Some l') x = true).
  { intros l l' Hsub H. apply ignored_true_iff in H. apply ignored_true_iff.
    destruct H as [H|(q & Hq & Hc)]; [now left|].
    right. exists q. split; [now apply Hsub | exact Hc]. }
  split; [apply Hmono|].
  intros Hsame.
  destruct (ignored_with (Some pats) x) eqn:E1,
           (ignored_with (Some pats') x) eqn:E2; try reflexivity.
  - rewrite (Hmono pats pats') in E2; [discriminate| |exact E1].
    intros q. apply Hsame.
  - rewrite (Hmono pats' pats) in E1; [discriminate| |exact E2].
    intros q. apply Hsame.
Qed.

(** X4. A pattern without a star is compared with the name literally,
    whatever other glob characters it holds. *)
Theorem star_free_patterns_are_literal (x : item) (pats : list str) :
  forallb (fun q => negb (contains star q)) pats = true ->
  ignored_with (Some pats) x
  = (ignore_hidden && hidden_pattern_match (item_name x))
    || existsb (fun q => str_eqb q (item_name x)) pats.
Proof.
  intros Hfree. unfold ignored, _should_ignore.
  destruct (ignore_hidden && hidden_pattern_match (item_name x));
    [reflexivity|].
  simpl orb. induction pats as [|q pats IH]; [reflexivity|].
  simpl in Hfree. apply andb_true_iff in Hfree. destruct Hfree as [Hq Hrest].
  apply negb_true_iff in Hq. cbn [ignore_loop existsb].
  destruct (str_eqb q (item_name x)); [reflexivity|].
  rewrite Hq. simpl orb. now apply IH.
Qed.

Lemma path_match_rooted (p : path) (rest : str) :
  p_root p = [] ->
  path_match fnmatchcase p (slash :: rest) = Ok false.
Proof.
  intros Hrel. unfold path_match, parse_parts. rewrite Hrel.
  rewrite N.eqb_refl.
  destruct (length (slash :: rest)
            - length (lstrip_by (N.eqb slash) (slash :: rest)) =? 2);
    reflexivity.
Qed.

(** X5. When the path of an entry is relative, a pattern that begins
    with a slash excludes nothing. *)
Theorem rooted_patterns_miss_relative_paths (x : item) (pats : list str) :
  p_root (item_path x) = [] ->
  contains slash (item_name x) = false ->
  Forall (fun q => exists rest, q = slash :: rest) pats ->
  ignored_with (Some pats) x
  = ignore_hidden && hidden_pattern_match (item_name x).
Proof.
  intros Hrel Hname Hall. unfold ignored, _should_ignore.
  destruct (ignore_hidden && hidden_pattern_match (item_name x));
    [reflexivity|].
  induction Hall as [|q pats (rest & ->) _ IH]; [reflexivity|].
  cbn [ignore_loop].
  assert (Hne : str_eqb (slash :: rest) (item_name x) = false).
  { apply str_eqb_neq. intros E. rewrite <- E in Hname.
    simpl in Hname. discriminate. }
  rewrite Hne.
  destruct (contains star (slash :: rest)); [|exact IH].
  rewrite path_match_rooted by assumption. exact IH.
Qed.

End Filter.

Lemma ignored_depends_on_pattern_set_witness :
  ignored simple_fnmatchcase (Some [lit "*.py"; lit "x"]) false Sample.b_py
  = ignored simple_fnmatchcase (Some [lit "x"; lit "*.py"; lit "x"]) false
      Sample.b_py.
Proof.
  apply (proj2 (ignored_depends_on_pattern_set simple_fnmatchcase false
                  Sample.b_py [lit "*.py"; lit "x"]
                  [lit "x"; lit "*.py"; lit "x"])).
  intros q. simpl. tauto.
Defined.

Lemma star_free_patterns_are_literal_witness :
  ignored simple_fnmatchcase (Some [lit "?.py"]) false Sample.b_py = false.
Proof.
  exact (star_free_patterns_are_literal simple_fnmatchcase false Sample.b_py
           [lit "?.py"] eq_refl).
Defined.

Lemma rooted_patterns_miss_relative_paths_witness :
  ignored simple_fnmatchcase (Some [lit "/*"]) true Sample.b_py = false.
Proof.
  apply (rooted_patterns_miss_relative_paths simple_fnmatchcase true
           Sample.b_py [lit "/*"] eq_refl eq_refl).
  repeat constructor. now exists (lit "*").
Defined.

End FilterFacts.

(** ** Numbering at the end of a file *)

Module NumberingEdge.
Import Tool.

Lemma dropwhile_all (p : char -> bool) (ws rest : str) :
  forallb p ws = true -> dropwhile p (ws ++ rest) = dropwhile p rest.
Proof.
  induction ws as [|c ws IH]; simpl; [reflexivity|].
  intros H. apply andb_true_iff in H. destruct H as [-> H]. now apply IH.
Qed.

Lemma forallb_rev {A} (p : A -> bool) (l : list A) :
  forallb p l = true -> forallb p (rev l) = true.
Proof.
  rewrite !forallb_forall. intros H x Hx. apply H. now apply in_rev.
Qed.

Lemma rstrip_trailing (s ws : str) :
  forallb isspace ws = true -> rstrip (s ++ ws) = rstrip s.
Proof.
  intros H. unfold rstrip, rstrip_by. rewrite rev_app_distr.
  now rewrite dropwhile_all by now apply forallb_rev.
Qed.

(** X6. Whitespace at the end of a file, blank lines included, does not
    change its numbered block, and a file of nothing but whitespace (or
    an empty one) gets the single line ["1: "]. *)
Theorem number_lines_ignores_trailing_space (content ws : str) :
  forallb isspace ws = true ->
  number_lines (content ++ ws) = number_lines content
  /\ number_lines ws = [lit "1: "].
Proof.
  intros H. unfold number_lines. split.
  - now rewrite rstrip_trailing.
  - change ws with ([] ++ ws). now rewrite rstrip_trailing.
Qed.

Lemma number_lines_ignores_trailing_space_witness :
  number_lines (lit "a" ++ [newline; newline; 32%N; 9%N])
  = number_lines (lit "a")
  /\ number_lines [newline; newline; 32%N; 9%N] = [lit "1: "].
Proof.
  exact (number_lines_ignores_trailing_space (lit "a")
           [newline; newline; 32%N; 9%N] eq_refl).
Defined.

End NumberingEdge.

(** ** More on the walk *)

Module WalkMore.
Import Tool Views IgnoreFacts WalkFacts.

Section Walk.
Variable str_lower : str -> str.
Variable fnmatchcase : str -> str -> bool.
Variable directory_path : item.
Variable ignore_patterns : option (list str).
Variable ignore_hidden : bool.
Variable include_file_contents : bool.
Variable max_depth : nat.

Local Abbreviation build_tree :=
  (_build_tree str_lower fnmatchcase directory_path ignore_patterns
     ignore_hidden include_file_contents).
Local Abbreviation walk_from_root :=
  (build_from_root str_lower fnmatchcase directory_path ignore_patterns
     ignore_hidden include_file_contents max_depth).
Local Abbreviation ignored :=
  (ignored fnmatchcase ignore_patterns ignore_hidden).
Local Abbreviation lines_of :=
  (tree_lines str_lower fnmatchcase directory_path ignore_patterns
     ignore_hidden).
Local Abbreviation under_root := (under_root directory_path).
Local Abbreviation depth_of :=
  (fun x : item => length (below_root directory_path (item_path x))).
Local Abbreviation anchor_of :=
  (fun x : item =>
     Anchor.create_anchor_id str_lower (rel_path_str directory_path x)).
Local Abbreviation root_height := (height (item_node directory_path)).

Lemma kept_child (d : item) (items : list item) (x : item)
    (keep kind : item -> bool) :
  iterdir d = Listed items ->
  In x (filter keep
          (sorted_by (key_name_lower str_lower) (filter kind items))) ->
  keep x = true /\ kind x = true
  /\ exists e l n,
       item_node d = Dir n (Listed l) /\ In e l /\ x = child_item d e.
Proof.
  intros Hls Hx. apply filter_In in Hx. destruct Hx as [Hx Hkeep].
  apply sorted_by_In, filter_In in Hx. destruct Hx as [Hx Hkind].
  repeat split; try assumption. now apply (iterdir_children d items).
Qed.

Lemma child_kept (d : item) (items : list item) (x : item)
    (keep kind : item -> bool) :
  In x items -> kind x = true -> keep x = true ->
  In x (filter keep
          (sorted_by (key_name_lower str_lower) (filter kind items))).
Proof.
  intros Hx Hkind Hkeep. apply filter_In. split; [|exact Hkeep].
  apply sorted_by_In, filter_In. now split.
Qed.

(** *** Lines and the recursion limit *)

Lemma for_each_each_ok {A S} (l : list A) (body : A -> S -> res S) :
  forall s s',
    for_each l body s = Ok s' ->
    forall x, In x l -> exists s1 s2, body x s1 = Ok s2.
Proof.
  induction l as [|a l IH]; simpl; intros s s' Hrun x Hx; [destruct Hx|].
  destruct (body a s) as [s1|] eqn:E; simpl in Hrun; [|discriminate].
  destruct Hx as [<-|Hx]; [eauto | eapply IH; eauto].
Qed.

Lemma flat_map_agree {A B} (f g : A -> list B) (l : list A) :
  (forall x, In x l -> f x = g x) -> flat_map f l = flat_map g l.
Proof.
  induction l as [|a l IH]; simpl; intros H; [reflexivity|].
  rewrite (H a) by now left. rewrite IH; auto.
Qed.

(** A walk that returns never reached the limit, so a higher limit
    gives the same lines. *)
Lemma tree_lines_mono (n : nat) :
  forall d prefix indent st st',
    build_tree n d prefix indent st = Ok st' ->
    forall m, n <= m ->
      lines_of m d prefix indent = lines_of n d prefix indent.
Proof.
  induction n as [|n IH]; intros d prefix indent st st' Hrun m Hm;
    [discriminate|].
  destruct m as [|m]; [lia|].
  rewrite build_tree_step in Hrun. cbn [tree_lines].
  destruct (iterdir d) as [items| |] eqn:Hls; try reflexivity.
  destruct (forallb can_stat items); [|discriminate].
  destruct (for_each _ _ st) as [st1|] eqn:Edirs; [|discriminate].
  f_equal. apply flat_map_agree. intros x Hx. f_equal.
  apply filter_In in Hx. destruct Hx as [Hx Hkeep].
  destruct (for_each_each_ok _ _ _ _ Edirs x Hx) as (s1 & s2 & Hstep).
  unfold dir_step in Hstep. rewrite should_ignore_total in Hstep.
  apply negb_true_iff in Hkeep. rewrite Hkeep in Hstep. cbn [bind] in Hstep.
  apply (IH _ _ _ _ _ Hstep). lia.
Qed.

(** Beyond the depth of the tree the limit makes no difference. *)
Lemma tree_lines_deep (n : nat) :
  forall m d prefix indent,
    height (item_node d) < n -> height (item_node d) < m ->
    lines_of n d prefix indent = lines_of m d prefix indent.
Proof.
  induction n as [|n IH]; intros m d prefix indent Hn Hm; [lia|].
  destruct m as [|m]; [lia|]. cbn [tree_lines].
  destruct (iterdir d) as [items| |] eqn:Hls; try reflexivity.
  f_equal. apply flat_map_agree. intros x Hx. f_equal.
  destruct (kept_child d items x _ _ Hls Hx)
    as (_ & _ & e & l & nm & Hnode & He & ->).
  rewrite Hnode in Hn, Hm. simpl in Hn, Hm.
  pose proof (height_child e l He) as Hle.
  apply IH; simpl; lia.
Qed.

Lemma walk_lines (st : state) :
  walk_from_root = Ok st ->
  result st
  = result (initial_state directory_path)
    ++ lines_of (S root_height) directory_path [] (lit "  ").
Proof.
  intros Hrun. unfold build_from_root in Hrun.
  rewrite (build_tree_lines _ _ _ _ _ _ _ _ _ _ _ _ Hrun). f_equal.
  destruct (Nat.le_gt_cases max_depth (S root_height)) as [Hle|Hgt].
  - symmetry. now apply (tree_lines_mono _ _ _ _ _ _ Hrun).
  - apply tree_lines_deep; lia.
Qed.

(** *** Indentation *)

Local Abbreviation indented := (Views.indented directory_path).

Lemma tree_lines_indented (n : nat) :
  forall d prefix indent,
    under_root d ->
    Forall (indented d prefix indent) (lines_of n d prefix indent).
Proof.
  induction n as [|n IH]; intros d prefix indent Hd; simpl; [constructor|].
  destruct (iterdir d) as [items| |] eqn:Hls;
    [|repeat constructor|constructor].
  apply Forall_app. split.
  - apply Forall_flat_map, Forall_forall. intros x Hx.
    destruct (kept_child d items x _ _ Hls Hx)
      as (_ & _ & e & l & nm & _ & _ & ->).
    pose proof (under_root_child directory_path d e Hd) as Hx'.
    pose proof (below_root_child directory_path d e Hd) as Hb.
    constructor.
    + unfold Views.indented. split; [reflexivity|]. split; [exact Hx'|].
      exists 0. rewrite Hb, length_app. simpl. split; [lia|].
      now rewrite app_nil_r.
    + eapply Forall_impl; [|apply (IH _ (prefix ++ indent) indent Hx')].
      intros [] H; unfold Views.indented in *; try exact I;
        destruct H as (Hi & Hu & k & Hk & Hp);
        (split; [exact Hi|]; split; [exact Hu|];
         exists (S k); rewrite Hk, Hb, length_app; simpl;
         split; [lia | now rewrite Hp, <- app_assoc]).
  - apply Forall_map, Forall_forall. intros x Hx.
    destruct (kept_child d items x _ _ Hls Hx)
      as (_ & _ & e & l & nm & _ & _ & ->).
    unfold Views.indented. split; [reflexivity|].
    split; [now apply under_root_child|].
    exists 0. rewrite (below_root_child directory_path d e Hd), length_app.
    simpl. split; [lia | now rewrite app_nil_r].
Qed.

Lemma concat_repeat_comm (indent : str) (k : nat) :
  concat (repeat indent k) ++ indent = indent ++ concat (repeat indent k).
Proof.
  induction k as [|k IH]; simpl; [now rewrite app_nil_r|].
  now rewrite <- app_assoc, IH.
Qed.

(** X7. Every folder and file line of the tree is indented by two
    spaces for each level its entry lies below the root. *)
Theorem tree_lines_are_indented_by_depth (st : state) :
  walk_from_root = Ok st ->
  forall l,
    In l (result st) ->
    match l with
    | FolderLine p i x | FileLine p i x _ =>
        p ++ i = concat (repeat (lit "  ") (depth_of x)) /\ 1 <= depth_of x
    | _ => True
    end.
Proof.
  intros Hrun l Hl. unfold build_from_root in Hrun.
  apply build_tree_lines in Hrun. rewrite Hrun in Hl.
  apply in_app_iff in Hl. destruct Hl as [Hl|Hl].
  - simpl in Hl. now repeat (destruct Hl as [<-|Hl]; [exact I|]).
  - pose proof (tree_lines_indented max_depth directory_path []
                  (lit "  ") (under_root_root directory_path)) as Hall.
    rewrite Forall_forall in Hall. specialize (Hall l Hl).
    destruct l; cbv beta iota; try exact I;
      unfold Views.indented in Hall; rewrite below_root_root in Hall;
      destruct Hall as (-> & _ & k & -> & ->);
      (split; [|simpl; lia]); cbn [length plus app];
      now rewrite concat_repeat_comm.
Qed.

(** *** Nothing kept is left out *)

Local Abbreviation entered :=
  (Views.entered fnmatchcase directory_path ignore_patterns ignore_hidden).

Lemma tree_lines_child_dir (n : nat) (d : item) (items : list item)
    (x : item) (prefix indent : str) :
  iterdir d = Listed items -> In x items -> is_dir x = true ->
  ignored x = false ->
  In (FolderLine prefix indent x) (lines_of (S n) d prefix indent)
  /\ incl (lines_of n x (prefix ++ indent) indent)
          (lines_of (S n) d prefix indent).
Proof.
  intros Hls Hx Hdir Hign. simpl. rewrite Hls.
  assert (Hkept : In x (filter (fun d0 => negb (ignored d0))
                          (sorted_by (key_name_lower str_lower)
                             (filter is_dir items)))).
  { apply child_kept; auto. now rewrite Hign. }
  split.
  - apply in_app_iff. left. apply in_flat_map. exists x.
    split; [exact Hkept | now left].
  - intros l Hl. apply in_app_iff. left. apply in_flat_map. exists x.
    split; [exact Hkept | now right].
Qed.

Lemma tree_lines_child_file (n : nat) (d : item) (items : list item)
    (x : item) (prefix indent : str) :
  iterdir d = Listed items -> In x items -> is_file x = true ->
  ignored x = false -> resolvable str_lower x = true ->
  In (FileLine prefix indent x (anchor_of x))
     (lines_of (S n) d prefix indent).
Proof.
  intros Hls Hx Hfile Hign Hres. simpl. rewrite Hls.
  apply in_app_iff. right.
  apply (in_map (fun f => FileLine prefix indent f (anchor_of f))).
  apply child_kept; auto. now rewrite Hign, Hres.
Qed.

Lemma entered_lines (indent : str) (d : item) :
  entered d ->
  exists n prefix,
    height (item_node d) < S n
    /\ incl (lines_of (S n) d prefix indent)
            (lines_of (S root_height) directory_path [] indent).
Proof.
  induction 1 as [|d items x _ (n & prefix & Hh & Hincl) Hls Hx Hdir Hign].
  - exists root_height, []. split; [lia | apply incl_refl].
  - destruct (iterdir_children d items x Hls Hx)
      as (e & l & nm & Hnode & He & ->).
    rewrite Hnode in Hh. simpl in Hh.
    pose proof (height_child e l He) as Hle.
    destruct n as [|n]; [lia|].
    exists n, (prefix ++ indent). split; [simpl; lia|].
    eapply incl_tran; [|exact Hincl].
    now apply (tree_lines_child_dir (S n) d items).
Qed.

(** X8. Every entry the filter keeps in a directory the walk enters is
    in the tree: a subdirectory by a folder line, a file with a known
    extension by a file line carrying the anchor of its relative
    path. *)
Theorem kept_entries_are_listed (st : state) (d : item)
    (items : list item) (x : item) :
  walk_from_root = Ok st ->
  entered d ->
  iterdir d = Listed items ->
  In x items ->
  ignored x = false ->
  (is_dir x = true ->
   exists prefix, In (FolderLine prefix (lit "  ") x) (result st))
  /\ (is_file x = true ->
      resolvable str_lower x = true ->
      exists prefix,
        In (FileLine prefix (lit "  ") x (anchor_of x)) (result st)).
Proof.
  intros Hrun Hd Hls Hx Hign. apply walk_lines in Hrun.
  destruct (entered_lines (lit "  ") d Hd) as (n & prefix & _ & Hincl).
  split.
  - intros Hdir. exists prefix. rewrite Hrun. apply in_app_iff. right.
    apply Hincl. now apply (tree_lines_child_dir n d items).
  - intros Hfile Hres. exists prefix. rewrite Hrun. apply in_app_iff.
    right. apply Hincl. now apply (tree_lines_child_file n d items).
Qed.

(** *** The layout of the document *)

Local Abbreviation supported_record := (Tool.supported_record str_lower).
Local Abbreviation section_of := (Views.section_lines str_lower).

Lemma emit_file_lines (kv : str * content_record) (result : list line) :
  supported_record kv ->
  emit_file str_lower kv result = Ok (result ++ section_of kv).
Proof.
  unfold Tool.supported_record, emit_file, section_lines.
  destruct (Lang.determine_file_language _ _); [|congruence].
  intros _. destruct (read_text _); now rewrite <- !app_assoc.
Qed.

Lemma emit_all_lines (records : list (str * content_record)) :
  Forall supported_record records ->
  forall result,
    for_each records (emit_file str_lower) result
    = Ok (result ++ flat_map section_of records).
Proof.
  induction 1 as [|kv records Hkv _ IH]; intros result; simpl.
  - now rewrite app_nil_r.
  - rewrite (emit_file_lines kv result Hkv). simpl.
    rewrite IH. now rewrite <- app_assoc.
Qed.

(** X10. The document is the four opening lines, the tree, and, when
    contents are asked for and at least one file was recorded, a rule,
    the contents heading and one section per record in the order of the
    records; otherwise it ends with the tree. *)
Theorem document_layout (st : state) :
  walk_from_root = Ok st ->
  result st
  = [Preamble; StructureHeading; Legend;
     RootLine (root_name directory_path)]
    ++ lines_of (S root_height) directory_path [] (lit "  ")
  /\ document str_lower fnmatchcase directory_path ignore_patterns
       ignore_hidden include_file_contents max_depth
     = Ok (result st
           ++ (if include_file_contents
                  && negb (length (file_contents st) =? 0)
               then [Separator; ContentsHeading]
                    ++ flat_map section_of (file_contents st)
               else [])).
Proof.
  intros Hrun. split.
  - now apply walk_lines.
  - unfold document. rewrite Hrun. cbn [bind]. unfold emit_contents.
    destruct (emit_contents_total str_lower fnmatchcase directory_path
                ignore_patterns ignore_hidden include_file_contents max_depth st Hrun)
      as (Hsup & _).
    destruct (include_file_contents && _); [|now rewrite app_nil_r].
    rewrite (emit_all_lines _ Hsup). now rewrite <- app_assoc.
Qed.

(** C8. When reading a recorded file fails, the document is still
    produced.  The section of that file is its heading, its two
    describing lines and the error notice, with no fence and no code
    block; it stands between the sections of the records before it and
    those of the records after it, and every later record whose file can
    be read still has its numbered code block. *)
Theorem read_error_is_local (st : state)
    (before after : list (str * content_record)) (k : str)
    (r : content_record) (msg : str) :
  walk_from_root = Ok st ->
  include_file_contents = true ->
  file_contents st = before ++ (k, r) :: after ->
  read_text (rec_file_path r) = ReadError msg ->
  document str_lower fnmatchcase directory_path ignore_patterns
    ignore_hidden include_file_contents max_depth
  = Ok (result st
        ++ [Separator; ContentsHeading]
        ++ flat_map section_of before
        ++ [SectionHeading (rec_anchor_id r);
            FileLabel (rec_rel_path r);
            Intro (rec_rel_path r);
            ReadErrorLine msg]
        ++ flat_map section_of after)
  /\ (forall k' r' content,
        In (k', r') after ->
        read_text (rec_file_path r') = ReadOk content ->
        In (CodeBlock (number_lines content))
           (flat_map section_of after)).
Proof.
  intros Hrun Hinc Hsplit Hread.
  assert (Hin : In (k, r) (file_contents st))
    by (rewrite Hsplit; apply in_app_iff; right; now left).
  destruct (emit_contents_total str_lower fnmatchcase directory_path
              ignore_patterns ignore_hidden include_file_contents max_depth
              st Hrun) as (Hsup & _).
  rewrite Forall_forall in Hsup.
  assert (Hlang : forall kv,
            In kv (file_contents st) ->
            exists language,
              Lang.determine_file_language str_lower
                (item_path (rec_file_path (snd kv))) = Some language).
  { intros kv Hkv. specialize (Hsup kv Hkv).
    unfold Tool.supported_record in Hsup.
    destruct (Lang.determine_file_language _ _); [eauto | congruence]. }
  split.
  - unfold document. rewrite Hrun. cbn [bind]. unfold emit_contents.
    assert (Hlen : negb (length (file_contents st) =? 0) = true)
      by (rewrite Hsplit; now destruct before).
    rewrite Hinc, Hlen. cbn [andb].
    rewrite emit_all_lines by (now apply Forall_forall).
    rewrite <- app_assoc. do 3 f_equal.
    rewrite Hsplit, flat_map_app. f_equal. cbn [flat_map]. f_equal.
    unfold section_lines. cbn [snd].
    destruct (Hlang (k, r) Hin) as (language & Elang).
    cbn [snd] in Elang. rewrite Elang, Hread. reflexivity.
  - intros k' r' content Hin' Hread'. apply in_flat_map.
    exists (k', r'). split; [exact Hin'|].
    unfold section_lines. cbn [snd].
    destruct (Hlang (k', r')) as (language & Elang).
    { rewrite Hsplit. apply in_app_iff. right. now right. }
    cbn [snd] in Elang. rewrite Elang, Hread'.
    simpl. auto 10.
Qed.

(** *** The records *)

Local Abbreviation key_of := (Views.file_key directory_path).
Local Abbreviation record_of := (Views.file_record str_lower directory_path).
Local Abbreviation files_of :=
  (Views.tree_files str_lower fnmatchcase ignore_patterns ignore_hidden).
Local Abbreviation store :=
  (fun (fc : list (str * content_record)) (x : item) =>
     if include_file_contents then dict_set fc (key_of x) (record_of x)
     else fc).

Lemma for_each_fold {A S T} (proj : S -> T) (step : T -> A -> T)
    (l : list A) (body : A -> S -> res S) :
  (forall x s s', In x l -> body x s = Ok s' -> proj s' = step (proj s) x) ->
  forall s s', for_each l body s = Ok s' -> proj s' = fold_left step l (proj s).
Proof.
  induction l as [|x l IH]; simpl; intros Hbody s s' Hrun.
  - now inversion Hrun.
  - destruct (body x s) as [s1|] eqn:E; simpl in Hrun; try discriminate.
    rewrite (IH (fun y a b Hy => Hbody y a b (or_intror Hy)) _ _ Hrun).
    now rewrite (Hbody x s s1 (or_introl eq_refl) E).
Qed.

Lemma fold_left_flat_map {A B T} (f : T -> B -> T) (g : A -> list B)
    (l : list A) :
  forall a,
    fold_left (fun acc x => fold_left f (g x) acc) l a
    = fold_left f (flat_map g l) a.
Proof.
  induction l as [|x l IH]; intros a; simpl; [reflexivity|].
  now rewrite fold_left_app, IH.
Qed.

Lemma flat_map_unit {A} (l : list A) : flat_map (fun x => [x]) l = l.
Proof. induction l; simpl; congruence. Qed.

Lemma file_step_records (prefix indent : str) (x : item) (st st' : state) :
  file_step str_lower fnmatchcase directory_path ignore_patterns
    ignore_hidden include_file_contents prefix indent x st = Ok st' ->
  file_contents st'
  = fold_left store
      (if negb (ignored x) && resolvable str_lower x then [x] else [])
      (file_contents st).
Proof.
  unfold file_step, resolvable.
  rewrite should_ignore_total. simpl.
  destruct (ignored x); simpl; [now intros [= <-]|].
  destruct (Lang.determine_file_language str_lower (item_path x));
    [|now intros [= <-]].
  destruct (relative_to (item_path x) (item_path directory_path))
    as [rel|] eqn:Erel; simpl; try discriminate.
  destruct include_file_contents; intros [= <-]; simpl; [|reflexivity].
  unfold file_key, file_record, rel_path_str. now rewrite Erel.
Qed.

Lemma build_tree_records (fuel : nat) :
  forall d prefix indent st st',
    build_tree fuel d prefix indent st = Ok st' ->
    file_contents st'
    = fold_left store (files_of fuel d) (file_contents st).
Proof.
  induction fuel as [|fuel IH]; intros d prefix indent st st';
    [discriminate|].
  rewrite build_tree_step. cbn [tree_files].
  destruct (iterdir d) as [items| |]; try discriminate;
    [|now intros [= <-]].
  destruct (forallb can_stat items); [|discriminate].
  destruct (for_each _ _ st) as [st1|] eqn:Edirs; simpl; try discriminate.
  intros Hfiles.
  apply (for_each_fold file_contents
           (fun fc x =>
              fold_left store
                (if negb (ignored x) && resolvable str_lower x
                 then [x] else []) fc)) in Hfiles;
    [|intros x s s' _; apply file_step_records].
  apply (for_each_fold file_contents
           (fun fc x =>
              fold_left store
                (if negb (ignored x) then files_of fuel x else []) fc))
    in Edirs.
  - rewrite Hfiles, Edirs, !fold_left_flat_map, !flat_map_filter.
    now rewrite fold_left_app, flat_map_unit.
  - intros x s s' _. unfold dir_step. rewrite should_ignore_total. simpl.
    destruct (ignored x); simpl; [now intros [= <-]|].
    intros Hrec. apply IH in Hrec. exact Hrec.
Qed.

(** *** Lists without repetition *)

Lemma NoDup_map_inj {A B} (f : A -> B) (l : list A) :
  NoDup (map f l) ->
  forall x y, In x l -> In y l -> f x = f y -> x = y.
Proof.
  induction l as [|a l IH]; simpl; intros Hnd x y Hx Hy E; [tauto|].
  inversion Hnd as [|? ? Hnotin Hnd']; subst.
  destruct Hx as [->|Hx], Hy as [->|Hy]; auto.
  - exfalso. apply Hnotin. rewrite E. now apply in_map.
  - exfalso. apply Hnotin. rewrite <- E. now apply in_map.
Qed.

Lemma NoDup_map_incl {A B} (f : A -> B) (l l' : list A) :
  NoDup (map f l) -> NoDup l' -> incl l' l -> NoDup (map f l').
Proof.
  intros Hnd. induction 1 as [|x l' Hx Hl' IH]; simpl; intros Hincl;
    constructor.
  - intros Hin. apply in_map_iff in Hin. destruct Hin as (y & E & Hy).
    apply Hx.
    rewrite <- (NoDup_map_inj f l Hnd y x); auto.
    + apply Hincl. now right.
    + apply Hincl. now left.
  - apply IH. intros y Hy. apply Hincl. now right.
Qed.

Lemma NoDup_map_transfer {A B C} (f : A -> B) (g : A -> C) (l : list A) :
  (forall x y, In x l -> In y l -> g x = g y -> f x = f y) ->
  NoDup (map f l) -> NoDup (map g l).
Proof.
  induction l as [|a l IH]; simpl; intros Hfg Hnd; [constructor|].
  inversion Hnd as [|? ? Hnotin Hnd']; subst. constructor.
  - intros Hin. apply in_map_iff in Hin. destruct Hin as (y & E & Hy).
    apply Hnotin. rewrite (Hfg a y); auto. now apply in_map.
  - apply IH; auto.
Qed.

Lemma NoDup_flat_map_tagged {A B T} (g : A -> list B) (t : A -> T)
    (tag : B -> T) (l : list A) :
  NoDup (map t l) ->
  (forall x, In x l -> NoDup (g x)) ->
  (forall x y, In x l -> In y (g x) -> tag y = t x) ->
  NoDup (flat_map g l).
Proof.
  induction l as [|a l IH]; simpl; intros Hnd Hg Htag; [constructor|].
  inversion Hnd as [|? ? Hnotin Hnd']; subst.
  apply NoDup_app; auto.
  intros y Hy Hy'. apply in_flat_map in Hy'. destruct Hy' as (x & Hx & Hyx).
  apply Hnotin.
  rewrite <- (Htag a y (or_introl eq_refl) Hy), (Htag x y (or_intror Hx) Hyx).
  now apply in_map.
Qed.

Lemma map_of_flat_map {A B C} (f : B -> C) (g : A -> list B) (l : list A) :
  map f (flat_map g l) = flat_map (fun x => map f (g x)) l.
Proof.
  induction l as [|a l IH]; simpl; [reflexivity|].
  now rewrite map_app, IH.
Qed.

Lemma flat_map_of_flat_map {A B C} (f : B -> list C) (g : A -> list B)
    (l : list A) :
  flat_map f (flat_map g l) = flat_map (fun x => flat_map f (g x)) l.
Proof.
  induction l as [|a l IH]; simpl; [reflexivity|].
  now rewrite flat_map_app, IH.
Qed.

Lemma flat_map_of_map {A B C} (f : B -> list C) (g : A -> B) (l : list A) :
  flat_map f (map g l) = flat_map (fun x => f (g x)) l.
Proof. induction l as [|a l IH]; simpl; congruence. Qed.

Lemma flat_map_ext_in {A B} (f g : A -> list B) (l : list A) :
  (forall x, In x l -> f x = g x) -> flat_map f l = flat_map g l.
Proof.
  induction l as [|a l IH]; simpl; intros H; [reflexivity|].
  rewrite (H a) by now left. rewrite IH; auto.
Qed.

Lemma distinct_NoDup (l : list str) : distinct l = true -> NoDup l.
Proof.
  induction l as [|x l IH]; simpl; intros H; constructor;
    apply andb_true_iff in H; destruct H as [Hx Hl]; [|now apply IH].
  intros Hin. apply negb_true_iff in Hx.
  assert (existsb (str_eqb x) l = true); [|congruence].
  apply existsb_exists. exists x. split; [exact Hin | apply str_eqb_refl].
Qed.

(** *** Keys of records *)

Lemma join_app (sep : str) (l1 l2 : list str) :
  l1 <> [] -> l2 <> [] ->
  join sep (l1 ++ l2) = join sep l1 ++ sep ++ join sep l2.
Proof.
  induction l1 as [|x l1 IH]; [congruence|]. intros _ H2.
  destruct l1 as [|y l1].
  - simpl. destruct l2; [congruence | reflexivity].
  - change (join sep ((x :: y :: l1) ++ l2))
      with (x ++ sep ++ join sep ((y :: l1) ++ l2)).
    rewrite IH by (discriminate || assumption).
    change (join sep (x :: y :: l1)) with (x ++ sep ++ join sep (y :: l1)).
    now rewrite <- !app_assoc.
Qed.

Lemma valid_name_no_slash (n : str) :
  valid_name n = true -> ~ In slash n.
Proof.
  unfold valid_name. intros H. apply andb_true_iff in H.
  destruct H as [_ H]. apply negb_true_iff in H.
  now apply contains_false.
Qed.

Lemma relative_to_below (x : item) :
  under_root x ->
  relative_to (item_path x) (item_path directory_path)
  = Ok {| p_root := [];
          p_names := below_root directory_path (item_path x) |}.
Proof.
  intros [Hr (comps & Hn)]. unfold relative_to, below_root.
  rewrite Hr, str_eqb_refl, Hn, strip_prefix_app.
  now rewrite skipn_app, skipn_all, Nat.sub_diag.
Qed.

Lemma entered_under_root (d : item) : entered d -> under_root d.
Proof.
  induction 1 as [|d items x _ IH Hls Hx _ _].
  - apply under_root_root.
  - destruct (iterdir_children d items x Hls Hx) as (e & l & n & _ & _ & ->).
    now apply under_root_child.
Qed.

Lemma build_tree_no_value_error (fuel : nat) :
  forall d prefix indent st,
    under_root d ->
    build_tree fuel d prefix indent st <> Raise ValueError.
Proof.
  induction fuel as [|fuel IH]; intros d prefix indent st Hu;
    [discriminate|].
  rewrite build_tree_step.
  destruct (iterdir d) as [items| |] eqn:Els; try discriminate.
  destruct (forallb can_stat items); [|discriminate].
  destruct (for_each _ _ st) as [st1| e1] eqn:Edirs; cbn [bind].
  - intros H. apply for_each_raise in H.
    destruct H as (x & s0 & Hx & H).
    apply sorted_by_In, filter_In in Hx. destruct Hx as [Hx _].
    destruct (iterdir_children d items x Els Hx)
      as (e & l & n & _ & _ & ->).
    destruct (file_step_total str_lower fnmatchcase directory_path
                ignore_patterns ignore_hidden include_file_contents
                prefix indent (child_item d e) s0) as (s' & Hs');
      [now apply under_root_child | congruence].
  - intros [= ->]. apply for_each_raise in Edirs.
    destruct Edirs as (x & s0 & Hx & H).
    apply sorted_by_In, filter_In in Hx. destruct Hx as [Hx _].
    destruct (iterdir_children d items x Els Hx)
      as (e & l & n & _ & _ & ->).
    unfold dir_step in H. rewrite should_ignore_total in H.
    cbn [bind] in H. destruct (ignored (child_item d e)); [discriminate|].
    revert H. apply IH. now apply under_root_child.
Qed.

(** X9. [relative_to] never fails in the walk: every entry found in a
    directory the walk enters lies below the root, and its relative path
    is the non-empty list of its components below the root, joined by
    slashes; so the walk never ends with the [ValueError] of
    [relative_to]. *)
Theorem relative_path_always_exists :
  (forall d items x,
     entered d ->
     iterdir d = Listed items ->
     In x items ->
     relative_to (item_path x) (item_path directory_path)
     = Ok {| p_root := [];
             p_names := below_root directory_path (item_path x) |}
     /\ below_root directory_path (item_path x) <> []
     /\ rel_path_str directory_path x
        = join [slash] (below_root directory_path (item_path x)))
  /\ walk_from_root <> Raise ValueError.
Proof.
  split; [|apply build_tree_no_value_error, under_root_root].
  intros d items x Hd Hls Hx.
  destruct (iterdir_children d items x Hls Hx) as (e & l & n & _ & _ & ->).
  pose proof (entered_under_root d Hd) as Hu.
  pose proof (under_root_child directory_path d e Hu) as Hux.
  pose proof (relative_to_below _ Hux) as Hrel.
  assert (Hne : below_root directory_path (item_path (child_item d e)) <> []).
  { rewrite (below_root_child directory_path d e Hu).
    now destruct (below_root directory_path (item_path d)). }
  split; [exact Hrel|]. split; [exact Hne|].
  unfold rel_path_str. rewrite Hrel. unfold path_str.
  cbn [p_root p_names].
  destruct (below_root directory_path (item_path (child_item d e)));
    [congruence | reflexivity].
Qed.

(** *** What a walk that returns has met *)

(** Every directory the walk enters is the argument of a call of
    [_build_tree] that returned, made with the nesting its depth leaves
    under the limit. *)
Lemma entered_was_walked (st : state) :
  walk_from_root = Ok st ->
  forall d,
    entered d ->
    exists fuel prefix indent s s',
      build_tree (S fuel) d prefix indent s = Ok s'
      /\ S fuel + depth_of d = max_depth.
Proof.
  intros Hrun d Hd.
  induction Hd as [|d items x Hd IH Hls Hx Hdir Hign].
  - unfold build_from_root in Hrun. rewrite below_root_root.
    destruct max_depth as [|fuel]; [discriminate|].
    exists fuel, [], (lit "  "), (initial_state directory_path), st.
    split; [exact Hrun | simpl; lia].
  - destruct IH as (fuel & prefix & indent & s & s' & Hwalk & Hdepth).
    rewrite build_tree_step, Hls in Hwalk.
    destruct (forallb can_stat items); [|discriminate].
    destruct (for_each _ _ s) as [s1|] eqn:Edirs; cbn [bind] in Hwalk;
      [|discriminate].
    destruct (for_each_each_ok _ _ _ _ Edirs x) as (a & b & Hstep).
    { apply sorted_by_In, filter_In. now split. }
    unfold dir_step in Hstep. rewrite should_ignore_total, Hign in Hstep.
    cbn [bind] in Hstep.
    destruct fuel as [|fuel]; [discriminate|].
    exists fuel, (prefix ++ indent), indent,
      (append (FolderLine prefix indent x) a), b.
    split; [exact Hstep|].
    destruct (iterdir_children d items x Hls Hx) as (e & l & n & _ & _ & ->).
    rewrite (below_root_child directory_path d e (entered_under_root d Hd)).
    rewrite length_app. simpl. lia.
Qed.

(** X14. A walk that returns has entered no directory nested as deep as
    the limit on nested calls, has met no listing that failed other than
    by refusal, and has met no entry whose status could not be read. *)
Theorem returned_walk_met_no_failure (st : state) (d : item) :
  walk_from_root = Ok st ->
  entered d ->
  length (below_root directory_path (item_path d)) < max_depth
  /\ iterdir d <> ListFailed
  /\ (forall items x,
        iterdir d = Listed items -> In x items -> can_stat x = true).
Proof.
  intros Hrun Hd.
  destruct (entered_was_walked st Hrun d Hd)
    as (fuel & prefix & indent & s & s' & Hwalk & Hdepth).
  split; [lia|]. rewrite build_tree_step in Hwalk.
  destruct (iterdir d) as [items| |]; try discriminate.
  - split; [discriminate|]. intros items' x [= <-] Hx.
    destruct (forallb can_stat items) eqn:E; [|discriminate].
    rewrite forallb_forall in E. now apply E.
  - split; [discriminate|]. intros items' x H. discriminate.
Qed.

(** X15. An entry of the root whose status cannot be read ends the whole
    call with [OSError], whatever the ignore settings are: the entries
    are examined before the filter is asked. *)
Theorem unreadable_entry_aborts (items : list item) (x : item)
    (output_file : option str) (writable : str -> bool) :
  0 < max_depth ->
  iterdir directory_path = Listed items ->
  In x items ->
  can_stat x = false ->
  walk_from_root = Raise OSError
  /\ generate_repo_structure_to_markdown str_lower fnmatchcase
       directory_path output_file ignore_patterns ignore_hidden
       include_file_contents writable max_depth = Raise OSError.
Proof.
  intros Hlimit Hls Hx Hstat.
  assert (Hrun : walk_from_root = Raise OSError).
  { unfold build_from_root. destruct max_depth as [|fuel]; [lia|].
    rewrite build_tree_step, Hls.
    destruct (forallb can_stat items) eqn:E; [|reflexivity].
    rewrite forallb_forall in E. rewrite (E x Hx) in Hstat.
    discriminate. }
  split; [exact Hrun|].
  unfold generate_repo_structure_to_markdown, document.
  now rewrite Hrun.
Qed.

Lemma file_key_split (x : item) :
  under_root x ->
  below_root directory_path (item_path x) <> [] ->
  Forall (fun c => valid_name c = true)
    (below_root directory_path (item_path x)) ->
  split slash (key_of x)
  = below_root directory_path (item_path x) ++ [[]; item_name x].
Proof.
  intros Hu Hne Hvalid.
  set (comps := below_root directory_path (item_path x)) in *.
  assert (Hname : item_name x = last comps []).
  { destruct Hu as [_ (cs & Hn)]. unfold item_name, name.
    assert (comps = cs).
    { unfold comps, below_root. rewrite Hn.
      now rewrite skipn_app, skipn_all, Nat.sub_diag. }
    subst cs. rewrite Hn.
    destruct (exists_last Hne) as (front & c & E). rewrite E.
    now rewrite app_assoc, !last_last. }
  assert (Hkey : key_of x = join [slash] (comps ++ [[]; item_name x])).
  { unfold file_key, rel_path_str. rewrite (relative_to_below x Hu).
    fold comps. unfold path_str. simpl p_root. simpl p_names.
    rewrite join_app by (assumption || discriminate).
    destruct comps; [congruence | reflexivity]. }
  rewrite Hkey. apply split_join.
  - destruct comps; discriminate.
  - apply Forall_app. split.
    + eapply Forall_impl; [|exact Hvalid].
      intros c. apply valid_name_no_slash.
    + assert (Hlast : In (item_name x) comps).
      { rewrite Hname. destruct (exists_last Hne) as (front & c & ->).
        rewrite last_last. apply in_app_iff. right. now left. }
      rewrite Forall_forall in Hvalid.
      repeat constructor; [intros [] |].
      now apply valid_name_no_slash, Hvalid.
Qed.

Lemma file_key_inj (x y : item) :
  under_root x -> under_root y ->
  below_root directory_path (item_path x) <> [] ->
  below_root directory_path (item_path y) <> [] ->
  Forall (fun c => valid_name c = true)
    (below_root directory_path (item_path x)) ->
  Forall (fun c => valid_name c = true)
    (below_root directory_path (item_path y)) ->
  key_of x = key_of y ->
  below_root directory_path (item_path x)
  = below_root directory_path (item_path y).
Proof.
  intros Hx Hy Hnx Hny Hvx Hvy E.
  pose proof (file_key_split x Hx Hnx Hvx) as Sx.
  pose proof (file_key_split y Hy Hny Hvy) as Sy.
  rewrite E, Sy in Sx.
  change [[]; item_name y] with ([[]] ++ [item_name y]) in Sx.
  change [[]; item_name x] with ([[]] ++ [item_name x]) in Sx.
  rewrite !app_assoc in Sx. apply app_inj_tail in Sx. destruct Sx as [Sx _].
  apply app_inj_tail in Sx. now destruct Sx.
Qed.

(** *** Files of a well-formed tree *)

Local Abbreviation below :=
  (fun x : item => below_root directory_path (item_path x)).

Lemma well_formed_listing (n : str) (l : list entry) :
  well_formed (Dir n (Listed l)) = true ->
  NoDup (map entry_name l)
  /\ (forall e, In e l ->
        valid_name (entry_name e) = true /\ well_formed e = true).
Proof.
  simpl. intros H. apply andb_true_iff in H. destruct H as [H Hwf].
  apply andb_true_iff in H. destruct H as [Hvalid Hdist].
  split; [now apply distinct_NoDup|].
  intros e He. rewrite forallb_forall in Hvalid, Hwf. split.
  - apply Hvalid. now apply in_map.
  - now apply Hwf.
Qed.

Local Abbreviation placed_below :=
  (fun d y : item =>
     under_root y
     /\ exists nm rest,
          below y = below d ++ nm :: rest
          /\ Forall (fun c => valid_name c = true) (nm :: rest)).

Lemma child_placed (d : item) (e : entry) :
  under_root d -> valid_name (entry_name e) = true ->
  placed_below d (child_item d e).
Proof.
  intros Hd Hv. split; [now apply under_root_child|].
  exists (entry_name e), []. split.
  - now apply below_root_child.
  - now repeat constructor.
Qed.

Lemma tree_files_placed (n : nat) :
  forall d,
    under_root d -> well_formed (item_node d) = true ->
    Forall (placed_below d) (files_of n d).
Proof.
  induction n as [|n IH]; intros d Hd Hwf; simpl; [constructor|].
  destruct (iterdir d) as [items| |] eqn:Hls; try constructor.
  apply Forall_app. split.
  - apply Forall_flat_map, Forall_forall. intros x Hx.
    destruct (kept_child d items x _ _ Hls Hx)
      as (_ & _ & e & l & nm & Hnode & He & ->).
    rewrite Hnode in Hwf.
    destruct (well_formed_listing nm l Hwf) as [_ Hl].
    destruct (Hl e He) as [Hv Hwe].
    destruct (child_placed d e Hd Hv) as [Hu _].
    eapply Forall_impl; [|apply (IH (child_item d e) Hu Hwe)].
    intros y (Hy & nm' & rest & Hb & Hvalid). split; [exact Hy|].
    exists (entry_name e), (nm' :: rest). split.
    + rewrite Hb, (below_root_child directory_path d e Hd).
      now rewrite <- app_assoc.
    + now constructor.
  - apply Forall_forall. intros x Hx.
    destruct (kept_child d items x _ _ Hls Hx)
      as (_ & _ & e & l & nm & Hnode & He & ->).
    rewrite Hnode in Hwf.
    destruct (well_formed_listing nm l Hwf) as [_ Hl].
    destruct (Hl e He) as [Hv _]. now apply child_placed.
Qed.

Lemma kept_names_NoDup (d : item) (items : list item)
    (keep_dir keep_file : item -> bool) :
  well_formed (item_node d) = true ->
  iterdir d = Listed items ->
  NoDup (map item_name
           (filter keep_dir
              (sorted_by (key_name_lower str_lower) (filter is_dir items))
            ++ filter keep_file
                 (sorted_by (key_name_lower str_lower)
                    (filter is_file items)))).
Proof.
  intros Hwf Hls.
  assert (Hnames : NoDup (map item_name items)).
  { unfold iterdir in Hls.
    destruct (item_node d) as [| n [l| |] | |]; try discriminate.
    injection Hls as <-. rewrite map_map.
    rewrite (map_ext _ entry_name) by apply item_name_child.
    now destruct (well_formed_listing n l Hwf). }
  pose proof (NoDup_map_inv _ _ Hnames) as Hitems.
  assert (Hpart : forall keep kind,
            NoDup (filter keep
                     (sorted_by (key_name_lower str_lower)
                        (filter kind items)))).
  { intros keep kind. apply NoDup_filter.
    eapply Permutation_NoDup;
      [symmetry; apply sorted_by_perm | now apply NoDup_filter]. }
  apply (NoDup_map_incl item_name items); [exact Hnames| |].
  - apply NoDup_app; auto. intros x Hx Hx'.
    apply filter_In in Hx, Hx'. destruct Hx as [Hx _], Hx' as [Hx' _].
    apply sorted_by_In, filter_In in Hx, Hx'.
    destruct Hx as [_ Hx], Hx' as [_ Hx'].
    unfold is_dir, is_file in *. destruct (item_node x); discriminate.
  - intros x Hx. apply in_app_iff in Hx.
    destruct Hx as [Hx|Hx]; apply filter_In in Hx; destruct Hx as [Hx _];
      apply sorted_by_In, filter_In in Hx; tauto.
Qed.

Lemma tree_files_below_NoDup (n : nat) :
  forall d,
    under_root d -> well_formed (item_node d) = true ->
    NoDup (map below (files_of n d)).
Proof.
  induction n as [|n IH]; intros d Hd Hwf; [constructor|].
  cbn [tree_files].
  destruct (iterdir d) as [items| |] eqn:Hls; try constructor.
  set (kd := filter _ (sorted_by _ (filter is_dir items))).
  set (kf := filter _ (sorted_by _ (filter is_file items))).
  pose (g := fun x => if is_dir x then files_of n x else [x]).
  assert (Hkd : forall x, In x kd ->
            is_dir x = true
            /\ exists e l nm,
                 item_node d = Dir nm (Listed l) /\ In e l
                 /\ x = child_item d e).
  { intros x Hx. now destruct (kept_child d items x _ _ Hls Hx) as (_ & ? & ?). }
  assert (Hkf : forall x, In x kf ->
            is_file x = true
            /\ exists e l nm,
                 item_node d = Dir nm (Listed l) /\ In e l
                 /\ x = child_item d e).
  { intros x Hx. now destruct (kept_child d items x _ _ Hls Hx) as (_ & ? & ?). }
  assert (Hg : flat_map (files_of n) kd ++ kf = flat_map g (kd ++ kf)).
  { rewrite flat_map_app. f_equal.
    - apply flat_map_ext_in. intros x Hx. unfold g.
      now rewrite (proj1 (Hkd x Hx)).
    - rewrite <- (flat_map_unit kf) at 1. apply flat_map_ext_in.
      intros x Hx. unfold g. destruct (Hkf x Hx) as [Hfile _].
      unfold is_dir, is_file in *. now destruct (item_node x). }
  rewrite Hg, map_of_flat_map.
  assert (Hall : forall x, In x (kd ++ kf) ->
            exists e l nm,
              item_node d = Dir nm (Listed l) /\ In e l
              /\ x = child_item d e).
  { intros x Hx. apply in_app_iff in Hx.
    destruct Hx as [Hx|Hx]; [now apply Hkd | now apply Hkf]. }
  apply (NoDup_flat_map_tagged _ item_name
           (fun comps => nth (length (below d)) comps [])).
  - now apply (kept_names_NoDup d items).
  - intros x Hx. destruct (Hall x Hx) as (e & l & nm & Hnode & He & ->).
    rewrite Hnode in Hwf.
    destruct (well_formed_listing nm l Hwf) as [_ Hl].
    destruct (Hl e He) as [Hv Hwe]. unfold g.
    destruct (is_dir (child_item d e)).
    + apply IH; [now apply under_root_child | exact Hwe].
    + repeat constructor. intros [].
  - intros x comps Hx Hc.
    destruct (Hall x Hx) as (e & l & nm & Hnode & He & ->).
    rewrite Hnode in Hwf.
    destruct (well_formed_listing nm l Hwf) as [_ Hl].
    destruct (Hl e He) as [Hv Hwe].
    rewrite item_name_child.
    assert (Hshape : exists rest, comps = below d ++ entry_name e :: rest).
    { unfold g in Hc. apply in_map_iff in Hc. destruct Hc as (y & <- & Hy).
      destruct (is_dir (child_item d e)).
      - pose proof (tree_files_placed n (child_item d e)
                      (under_root_child directory_path d e Hd) Hwe) as Hp.
        rewrite Forall_forall in Hp.
        destruct (Hp y Hy) as (_ & nm' & rest & Hb & _).
        exists (nm' :: rest).
        rewrite Hb, (below_root_child directory_path d e Hd).
        now rewrite <- app_assoc.
      - destruct Hy as [<-|[]]. exists [].
        apply (below_root_child directory_path d e Hd). }
    destruct Hshape as (rest & ->).
    rewrite app_nth2 by lia. now rewrite Nat.sub_diag.
Qed.

Lemma tree_files_keys_NoDup (n : nat) :
  well_formed (item_node directory_path) = true ->
  NoDup (map key_of (files_of n directory_path)).
Proof.
  intros Hwf.
  pose proof (under_root_root directory_path) as Hd.
  apply (NoDup_map_transfer below); [|now apply tree_files_below_NoDup].
  pose proof (tree_files_placed n directory_path Hd Hwf) as Hp.
  rewrite Forall_forall in Hp.
  intros x y Hx Hy E.
  destruct (Hp x Hx) as (Hux & nx & rx & Hbx & Hvx).
  destruct (Hp y Hy) as (Huy & ny & ry & Hby & Hvy).
  rewrite below_root_root in Hbx, Hby. simpl in Hbx, Hby.
  apply file_key_inj; auto; try (rewrite ?Hbx, ?Hby; discriminate).
  - now rewrite Hbx.
  - now rewrite Hby.
Qed.

(** *** Sections and file lines *)

Lemma dict_set_fresh {V} (d : list (str * V)) (k : str) (v : V) :
  ~ In k (map fst d) -> dict_set d k v = d ++ [(k, v)].
Proof.
  induction d as [|[k' v'] d IH]; simpl; intros Hk; [reflexivity|].
  destruct (str_eqb k' k) eqn:E.
  - apply str_eqb_eq in E. exfalso. apply Hk. now left.
  - rewrite IH; [reflexivity|]. intros H. apply Hk. now right.
Qed.

Lemma fold_store_fresh (files : list item) :
  include_file_contents = true ->
  forall fc,
    NoDup (map fst fc ++ map key_of files) ->
    fold_left store files fc
    = fc ++ map (fun x => (key_of x, record_of x)) files.
Proof.
  intros Hinc. induction files as [|x files IH]; intros fc Hnd; simpl.
  - now rewrite app_nil_r.
  - rewrite Hinc. simpl in Hnd.
    rewrite dict_set_fresh.
    + rewrite Hinc in IH. rewrite IH.
      * now rewrite <- app_assoc.
      * rewrite map_app, <- app_assoc. exact Hnd.
    + apply NoDup_remove_2 in Hnd. intros Hin. apply Hnd.
      apply in_app_iff. now left.
Qed.

Lemma fold_store_off (files : list item) :
  include_file_contents = false ->
  forall fc, fold_left store files fc = fc.
Proof.
  intros Hinc. rewrite Hinc.
  induction files as [|x files IH]; intros fc; simpl; auto.
Qed.

Lemma lines_links (n : nat) :
  forall d prefix indent,
    flat_map link_of_line (lines_of n d prefix indent)
    = map (fun x => (x, anchor_of x)) (files_of n d).
Proof.
  induction n as [|n IH]; intros d prefix indent; simpl; [reflexivity|].
  destruct (iterdir d) as [items| |]; try reflexivity.
  rewrite flat_map_app, map_app, flat_map_of_flat_map, map_of_flat_map,
    flat_map_of_map.
  f_equal. apply flat_map_ext. intros x. simpl. apply IH.
Qed.

(** X11. Without [include_file_contents] nothing is recorded.  With it,
    on a tree whose listings hold valid, pairwise different names, no
    record replaces another: the records are, in order, exactly the
    files of the file lines, each under the anchor its line links
    to. *)
Theorem sections_follow_file_lines (st : state) :
  walk_from_root = Ok st ->
  (include_file_contents = false -> file_contents st = [])
  /\ (include_file_contents = true ->
      well_formed (item_node directory_path) = true ->
      map link_of_record (file_contents st)
      = flat_map link_of_line (result st)
      /\ NoDup (map fst (file_contents st))).
Proof.
  intros Hrun. unfold build_from_root in Hrun.
  pose proof (build_tree_records _ _ _ _ _ _ Hrun) as Hrec.
  pose proof (build_tree_lines _ _ _ _ _ _ _ _ _ _ _ _ Hrun) as Hlines.
  simpl file_contents in Hrec. split.
  - intros Hinc. rewrite Hrec. now apply fold_store_off.
  - intros Hinc Hwf.
    pose proof (tree_files_keys_NoDup max_depth Hwf) as Hnd.
    rewrite (fold_store_fresh _ Hinc) in Hrec by exact Hnd.
    simpl in Hrec. rewrite Hrec, Hlines. split.
    + rewrite flat_map_app, lines_links. simpl.
      rewrite map_map. reflexivity.
    + rewrite map_map. simpl. exact Hnd.
Qed.

End Walk.

(** *** On the sample repository *)

Section OnSample.
Import Sample.

Local Abbreviation sample_walk :=
  (build_from_root ascii_lower simple_fnmatchcase sample_root None true
     true 1000).

Lemma sample_walk_returns : exists st, sample_walk = Ok st.
Proof. vm_compute. eexists. reflexivity. Defined.

Lemma tree_lines_are_indented_by_depth_witness :
  exists st,
    sample_walk = Ok st
    /\ forall l,
         In l (result st) ->
         match l with
         | FolderLine p i x | FileLine p i x _ =>
             p ++ i
             = concat (repeat (lit "  ")
                         (length (below_root sample_root (item_path x))))
             /\ 1 <= length (below_root sample_root (item_path x))
         | _ => True
         end.
Proof.
  destruct sample_walk_returns as (st & Hrun). exists st.
  split; [exact Hrun|].
  exact (tree_lines_are_indented_by_depth ascii_lower simple_fnmatchcase
           sample_root None true true 1000 st Hrun).
Defined.

Lemma kept_entries_are_listed_witness :
  exists st prefix,
    sample_walk = Ok st
    /\ In (FileLine prefix (lit "  ") sample_readme (lit "readme-md"))
          (result st).
Proof.
  destruct sample_walk_returns as (st & Hrun).
  destruct (kept_entries_are_listed ascii_lower simple_fnmatchcase
              sample_root None true true 1000 st sample_root
              (map (child_item sample_root)
                 [ File (lit "README.md")
                     (ReadOk (lit "hello" ++ [newline]
                              ++ lit "world" ++ [newline]));
                   File (lit "notes.txt") (ReadOk (lit "x"));
                   Dir (lit "b")
                     (Listed [File (lit "z.py") (ReadError (lit "gone"))]);
                   Dir (lit "A")
                     (Listed
                        [ File (lit "b.py") (ReadOk (lit "print(1)"));
                          Dir (lit ".git")
                            (Listed [File (lit "x.py") (ReadOk (lit "1"))]) ]);
                   Dir (lit "locked") PermissionDenied;
                   Other (lit "sock.py") ])
              sample_readme Hrun
              (entered_root simple_fnmatchcase sample_root None true)
              eq_refl (or_introl eq_refl) eq_refl) as [_ Hfile].
  destruct (Hfile eq_refl eq_refl) as (prefix & Hin).
  exists st, prefix. split; [exact Hrun | exact Hin].
Defined.

Lemma relative_path_always_exists_witness :
  relative_to (item_path sample_readme) (item_path sample_root)
  = Ok {| p_root := []; p_names := [lit "README.md"] |}
  /\ rel_path_str sample_root sample_readme = lit "README.md".
Proof.
  destruct (proj1 (relative_path_always_exists ascii_lower
                     simple_fnmatchcase sample_root None true true 1000)
              sample_root
              (map (child_item sample_root)
                 [ File (lit "README.md")
                     (ReadOk (lit "hello" ++ [newline]
                              ++ lit "world" ++ [newline]));
                   File (lit "notes.txt") (ReadOk (lit "x"));
                   Dir (lit "b")
                     (Listed [File (lit "z.py") (ReadError (lit "gone"))]);
                   Dir (lit "A")
                     (Listed
                        [ File (lit "b.py") (ReadOk (lit "print(1)"));
                          Dir (lit ".git")
                            (Listed [File (lit "x.py") (ReadOk (lit "1"))]) ]);
                   Dir (lit "locked") PermissionDenied;
                   Other (lit "sock.py") ])
              sample_readme
              (entered_root simple_fnmatchcase sample_root None true)
              eq_refl (or_introl eq_refl)) as (H1 & _ & H3).
  split; [exact H1 | exact H3].
Defined.

Lemma returned_walk_met_no_failure_witness :
  exists st,
    sample_walk = Ok st
    /\ length (below_root sample_root (item_path sample_root)) < 1000
    /\ iterdir sample_root <> ListFailed.
Proof.
  destruct sample_walk_returns as (st & Hrun). exists st.
  split; [exact Hrun|].
  destruct (returned_walk_met_no_failure ascii_lower simple_fnmatchcase
              sample_root None true true 1000 st sample_root Hrun
              (entered_root simple_fnmatchcase sample_root None true))
    as (Hdepth & Hlist & _).
  split; [exact Hdepth | exact Hlist].
Defined.

Lemma unreadable_entry_aborts_witness :
  generate_repo_structure_to_markdown ascii_lower simple_fnmatchcase
    MoreSamples.guarded_root None (Some [lit "private"]) true true
    (fun _ => true) 1000 = Raise OSError.
Proof.
  refine (proj2 (unreadable_entry_aborts ascii_lower simple_fnmatchcase
                   MoreSamples.guarded_root (Some [lit "private"]) true
                   true 1000
                   (map (child_item MoreSamples.guarded_root)
                      [File (lit "a.py") (ReadOk []);
                       NoStat (lit "private")])
                   (child_item MoreSamples.guarded_root
                      (NoStat (lit "private")))
                   None (fun _ => true) _ eq_refl
                   (or_intror (or_introl eq_refl)) eq_refl)).
  lia.
Defined.

Lemma document_layout_witness :
  exists st,
    sample_walk = Ok st
    /\ document ascii_lower simple_fnmatchcase sample_root None true true 1000
       = Ok (result st
             ++ [Separator; ContentsHeading]
             ++ flat_map (section_lines ascii_lower) (file_contents st)).
Proof.
  assert (H : exists st,
            sample_walk = Ok st
            /\ (true && negb (length (file_contents st) =? 0)) = true)
    by (vm_compute; eexists; split; reflexivity).
  destruct H as (st & Hrun & Hsome). exists st. split; [exact Hrun|].
  destruct (document_layout ascii_lower simple_fnmatchcase sample_root None
              true true 1000 st Hrun) as [_ Hdoc].
  rewrite Hdoc, Hsome. reflexivity.
Defined.

Lemma read_error_is_local_witness :
  exists st first,
    sample_walk = Ok st
    /\ file_contents st = [first; sample_z_record; sample_readme_record]
    /\ document ascii_lower simple_fnmatchcase sample_root None true true 1000
       = Ok (result st
             ++ [Separator; ContentsHeading]
             ++ flat_map (section_lines ascii_lower) [first]
             ++ [SectionHeading (lit "b-z-py");
                 FileLabel (lit "b/z.py");
                 Intro (lit "b/z.py");
                 ReadErrorLine (lit "gone")]
             ++ flat_map (section_lines ascii_lower) [sample_readme_record])
    /\ In (CodeBlock [lit "1: hello"; lit "2: world"])
          (flat_map (section_lines ascii_lower) [sample_readme_record]).
Proof.
  assert (H : exists st first,
            sample_walk = Ok st
            /\ file_contents st
               = [first; sample_z_record; sample_readme_record])
    by (vm_compute; eexists; eexists; split; reflexivity).
  destruct H as (st & first & Hrun & Hrec).
  destruct (read_error_is_local ascii_lower simple_fnmatchcase sample_root
              None true true 1000 st [first] [sample_readme_record]
              (fst sample_z_record) (snd sample_z_record) (lit "gone")
              Hrun eq_refl Hrec eq_refl) as (Hdoc & Hrest).
  exists st, first.
  split; [exact Hrun|]. split; [exact Hrec|]. split; [exact Hdoc|].
  exact (Hrest (fst sample_readme_record) (snd sample_readme_record)
           (lit "hello" ++ [newline] ++ lit "world" ++ [newline])
           (or_introl eq_refl) eq_refl).
Defined.

Lemma sections_follow_file_lines_witness :
  exists st,
    sample_walk = Ok st
    /\ map link_of_record (file_contents st)
       = flat_map link_of_line (result st)
    /\ NoDup (map fst (file_contents st)).
Proof.
  destruct sample_walk_returns as (st & Hrun). exists st.
  split; [exact Hrun|].
  exact (proj2 (sections_follow_file_lines ascii_lower simple_fnmatchcase
                  sample_root None true true 1000 st Hrun)
           eq_refl eq_refl).
Defined.

End OnSample.

End WalkMore.

(** ** The command line *)

Module CliFacts.
Import Tool Cli.

Section Main.
Variable str_lower : str -> str.
Variable fnmatchcase : str -> str -> bool.
Variable writable : str -> bool.
Variable max_depth : nat.

Lemma document_begins (directory_path : item)
    (ignore_patterns : option (list str))
    (ignore_hidden include_file_contents : bool) (lines : list line) :
  document str_lower fnmatchcase directory_path ignore_patterns
    ignore_hidden include_file_contents max_depth = Ok lines ->
  exists rest, lines = Preamble :: rest.
Proof.
  intros Hdoc.
  destruct (build_from_root str_lower fnmatchcase directory_path
              ignore_patterns ignore_hidden include_file_contents max_depth)
    as [st|] eqn:Hrun;
    try (unfold document in Hdoc; rewrite Hrun in Hdoc; discriminate).
  destruct (WalkMore.document_layout str_lower fnmatchcase directory_path
              ignore_patterns ignore_hidden include_file_contents max_depth
              st Hrun)
    as [Hres Hlay].
  rewrite Hlay in Hdoc. injection Hdoc as <-. rewrite Hres.
  eexists. reflexivity.
Qed.

Lemma markdown_not_empty (rest : list line) :
  join [newline] (map render (Preamble :: rest)) <> [].
Proof. simpl. destruct (map render rest); discriminate. Qed.

(** X12. Run from the command line without [--output] (or with an empty
    one), a successful run prints the whole document twice; with an
    output file it prints the document once, then the saved notice, and
    writes the document to the file.  Contents are always included and
    hidden entries are skipped unless [--show-hidden] is given. *)
Theorem main_prints_document_twice (args : namespace) (lines : list line) :
  document str_lower fnmatchcase (arg_path args) (arg_ignore args)
    (negb (arg_show_hidden args)) true max_depth = Ok lines ->
  let markdown := join [newline] (map render lines) in
  (output_requested (arg_output args) = None ->
   main str_lower fnmatchcase writable max_depth args
   = Ok ([markdown; markdown], None))
  /\ (forall f,
        output_requested (arg_output args) = Some f ->
        writable f = true ->
        main str_lower fnmatchcase writable max_depth args
        = Ok ([markdown; lit "Repository structure saved to " ++ f],
              Some (f, markdown))).
Proof.
  intros Hdoc markdown.
  destruct (document_begins _ _ _ _ _ Hdoc) as (rest & Hlines).
  assert (Hne : markdown <> []).
  { unfold markdown. rewrite Hlines. apply markdown_not_empty. }
  unfold main, generate_repo_structure_to_markdown. rewrite Hdoc.
  cbn [bind]. fold markdown. split.
  - intros Hnone. rewrite Hnone. cbn [bind returned printed written].
    assert (Hno : match arg_output args with
                  | Some (_ :: _) => false
                  | _ => true
                  end = true).
    { unfold output_requested in Hnone.
      destruct (arg_output args) as [[|c f]|]; congruence. }
    rewrite Hno. destruct markdown; [congruence | reflexivity].
  - intros f Hsome Hw. rewrite Hsome, Hw.
    cbn [bind returned printed written].
    assert (Hno : match arg_output args with
                  | Some (_ :: _) => false
                  | _ => true
                  end = false).
    { unfold output_requested in Hsome.
      destruct (arg_output args) as [[|c f']|]; congruence. }
    rewrite Hno. reflexivity.
Qed.

End Main.

Lemma main_prints_document_twice_witness :
  exists lines,
    document ascii_lower simple_fnmatchcase Sample.sample_root None true
      true 1000 = Ok lines
    /\ main ascii_lower simple_fnmatchcase (fun _ => true) 1000
         MoreSamples.sample_args
       = Ok ([join [newline] (map render lines);
              join [newline] (map render lines)], None).
Proof.
  assert (H : exists lines,
            document ascii_lower simple_fnmatchcase Sample.sample_root None
              true true 1000 = Ok lines)
    by (vm_compute; eexists; reflexivity).
  destruct H as (lines & Hdoc). exists lines. split; [exact Hdoc|].
  exact (proj1 (main_prints_document_twice ascii_lower simple_fnmatchcase
                  (fun _ => true) 1000 MoreSamples.sample_args lines Hdoc)
           eq_refl).
Defined.

End CliFacts.

(** ** What a line stands for *)

Module WalkSound.
Import Tool Views IgnoreFacts WalkFacts.

Section Walk.
Variable str_lower : str -> str.
Variable fnmatchcase : str -> str -> bool.
Variable directory_path : item.
Variable ignore_patterns : option (list str).
Variable ignore_hidden : bool.
Variable include_file_contents : bool.
Variable max_depth : nat.

Local Abbreviation ignored :=
  (ignored fnmatchcase ignore_patterns ignore_hidden).
Local Abbreviation entered :=
  (Views.entered fnmatchcase directory_path ignore_patterns ignore_hidden).
Local Abbreviation kept_in_entered :=
  (fun (kind : item -> bool) (x : item) =>
     exists d items,
       entered d /\ iterdir d = Listed items /\ In x items
       /\ kind x = true /\ ignored x = false).

(** X13. Every folder line shows a directory and every file line a
    regular file with a known extension; each such entry was found in a
    directory the walk entered and was kept by the filter, and a file
    line carries the anchor of the file's relative path.  The same holds
    for the file of every record. *)
Theorem listed_entries_were_kept (st : state) :
  build_from_root str_lower fnmatchcase directory_path ignore_patterns
    ignore_hidden include_file_contents max_depth = Ok st ->
  (forall l,
     In l (result st) ->
     match l with
     | FolderLine _ _ x => kept_in_entered is_dir x
     | FileLine _ _ x anchor_id =>
         kept_in_entered is_file x
         /\ resolvable str_lower x = true
         /\ anchor_id
            = Anchor.create_anchor_id str_lower
                (rel_path_str directory_path x)
     | _ => True
     end)
  /\ (forall k r,
        In (k, r) (file_contents st) ->
        kept_in_entered is_file (rec_file_path r)
        /\ resolvable str_lower (rec_file_path r) = true
        /\ k = file_key directory_path (rec_file_path r)
        /\ r = file_record str_lower directory_path (rec_file_path r)).
Proof.
  intros Hrun. unfold build_from_root in Hrun.
  pose (PL := fun l =>
          match l with
          | FolderLine _ _ x => kept_in_entered is_dir x
          | FileLine _ _ x anchor_id =>
              kept_in_entered is_file x
              /\ resolvable str_lower x = true
              /\ anchor_id
                 = Anchor.create_anchor_id str_lower
                     (rel_path_str directory_path x)
          | _ => True
          end).
  pose (PR := fun kv : str * content_record =>
          kept_in_entered is_file (rec_file_path (snd kv))
          /\ resolvable str_lower (rec_file_path (snd kv)) = true
          /\ fst kv = file_key directory_path (rec_file_path (snd kv))
          /\ snd kv
             = file_record str_lower directory_path
                 (rec_file_path (snd kv))).
  assert (Hok : state_ok PL PR st).
  { refine (build_tree_ok str_lower fnmatchcase directory_path
              ignore_patterns ignore_hidden include_file_contents
              entered PL PR _ _ _ _ _ _ _ _ _ _ _ Hrun).
    - exact (fun _ _ => I).
    - intros d items x prefix indent Hd Hls Hx Hdir Hign. split.
      + exists d, items. auto.
      + eapply entered_child; eauto.
    - intros d items x prefix indent language rel Hd Hls Hx Hfile Hign
        Hlang Hrel.
      assert (Hkept : kept_in_entered is_file x) by (exists d, items; auto).
      assert (Hres : resolvable str_lower x = true)
        by (unfold resolvable; now rewrite Hlang).
      assert (Hpath : rel_path_str directory_path x = path_str rel)
        by (unfold rel_path_str; now rewrite Hrel).
      split.
      + repeat split; auto. now rewrite Hpath.
      + unfold PR, file_key, file_record. simpl. rewrite Hpath.
        repeat split; auto.
    - apply entered_root.
    - apply initial_state_ok. intros l Hl. now destruct l. }
  destruct Hok as [HL HR]. rewrite Forall_forall in HL, HR. split.
  - intros l Hl. specialize (HL l Hl). now destruct l.
  - intros k r Hin. exact (HR (k, r) Hin).
Qed.

End Walk.

Lemma listed_entries_were_kept_witness :
  exists st,
    build_from_root ascii_lower simple_fnmatchcase Sample.sample_root None
      true true 1000 = Ok st
    /\ forall k r,
         In (k, r) (file_contents st) ->
         resolvable ascii_lower (rec_file_path r) = true
         /\ k = file_key Sample.sample_root (rec_file_path r).
Proof.
  destruct WalkMore.sample_walk_returns as (st & Hrun). exists st.
  split; [exact Hrun|]. intros k r Hin.
  destruct (proj2 (listed_entries_were_kept ascii_lower simple_fnmatchcase
                     Sample.sample_root None true true 1000 st Hrun) k r
              Hin)
    as (_ & Hres & Hk & _).
  split; assumption.
Defined.

End WalkSound.
